(** * Klipper command protocol: [src/command.c]

    A shallow embedding of the framed binary command protocol of the
    firmware (VLQ codec, CRC engine, frame layer, command codec and
    dispatcher) together with the properties of the protocol that are
    established about it.

    Conventions of the embedding.
    - A memory byte is a [Z]; every read converts it to the C type of the
      variable that receives it ([uint8], or [char] whose signedness is a
      target parameter).
    - A buffer that the code fills through [*p++ = x] is the list of the
      bytes written so far; a buffer that the code reads through a cursor
      is a list together with a [Z] offset.
    - Every label of a function that uses [goto] is a definition of its
      own, named after the function and the label. *)

From Stdlib Require Import String ZArith List Bool Lia.
Import ListNotations.
Open Scope Z_scope.

(** ** Fixed-width integers *)

Definition uint8 (x : Z) : Z := x mod 256.
Definition uint16 (x : Z) : Z := x mod 65536.
Definition uint32 (x : Z) : Z := x mod 4294967296.

(** [int32_t sv = v]: the two's complement reading of a 32-bit value. *)
Definition int32 (x : Z) : Z :=
  let u := uint32 x in if u <? 2147483648 then u else u - 4294967296.

(** ** Constants of [command.c] *)

Definition MESSAGE_MIN : Z := 5.
Definition MESSAGE_MAX : Z := 64.
Definition MESSAGE_HEADER_SIZE : Z := 2.
Definition MESSAGE_TRAILER_SIZE : Z := 3.
Definition MESSAGE_POS_LEN : Z := 0.
Definition MESSAGE_POS_SEQ : Z := 1.
Definition MESSAGE_TRAILER_CRC : Z := 3.
Definition MESSAGE_TRAILER_SYNC : Z := 1.
Definition MESSAGE_PAYLOAD_MAX : Z := MESSAGE_MAX - MESSAGE_MIN.
Definition MESSAGE_SEQ_MASK : Z := 0x0f.
Definition MESSAGE_DEST : Z := 0x10.
Definition MESSAGE_SYNC : Z := 0x7E.

Definition CF_NEED_SYNC : Z := Z.shiftl 1 0.
Definition CF_NEED_VALID : Z := Z.shiftl 1 1.

(** Modelled from the spec: the argument type enumeration of the absent
    [command.h], in the order in which section 3 of the specification
    lists it.  [_sendf] relies on [PT_uint16], [PT_int16] and [PT_byte]
    following [PT_uint32] and [PT_int32]. *)
Definition PT_uint32 : Z := 0.
Definition PT_int32 : Z := 1.
Definition PT_uint16 : Z := 2.
Definition PT_int16 : Z := 3.
Definition PT_byte : Z := 4.
Definition PT_string : Z := 5.
Definition PT_buffer : Z := 6.
Definition PT_progmem_buffer : Z := 7.

(** ** Memory reads *)

(** [buf[i]] for an index that the caller has checked against the length
    of the buffer. *)
Definition peek (buf : list Z) (i : Z) : Z := nth (Z.to_nat i) buf 0.

(** [*p++ = x] on an output buffer: the value is converted to [char],
    whose representation is the low eight bits. *)
Definition put (p : list Z) (x : Z) : list Z := p ++ [uint8 x].

(** ** VLQ codec *)

(** [encode_int(p, v)]: [p] is the output written so far, the result is
    the output after the call.  The labels [f1] .. [f4] fall through. *)
Definition encode_int_f4 (p : list Z) (v : Z) : list Z :=
  put p (Z.land v 0x7f).
Definition encode_int_f3 (p : list Z) (v : Z) : list Z :=
  encode_int_f4 (put p (Z.lor (Z.land (Z.shiftr v 7) 0x7f) 0x80)) v.
Definition encode_int_f2 (p : list Z) (v : Z) : list Z :=
  encode_int_f3 (put p (Z.lor (Z.land (Z.shiftr v 14) 0x7f) 0x80)) v.
Definition encode_int_f1 (p : list Z) (v : Z) : list Z :=
  encode_int_f2 (put p (Z.lor (Z.land (Z.shiftr v 21) 0x7f) 0x80)) v.

Definition encode_int (p : list Z) (v : Z) : list Z :=
  let v := uint32 v in
  let sv := int32 v in
  if (sv <? Z.shiftl 3 5) && (sv >=? - Z.shiftl 1 5) then encode_int_f4 p v
  else if (sv <? Z.shiftl 3 12) && (sv >=? - Z.shiftl 1 12) then encode_int_f3 p v
  else if (sv <? Z.shiftl 3 19) && (sv >=? - Z.shiftl 1 19) then encode_int_f2 p v
  else if (sv <? Z.shiftl 3 26) && (sv >=? - Z.shiftl 1 26) then encode_int_f1 p v
  else encode_int_f1 (put p (Z.lor (Z.shiftr v 28) 0x80)) v.

(** The [while (c & 0x80)] loop of [parse_int]: [mem] is the memory from
    the cursor [p] on.  Reading past the modelled memory has no result. *)
Fixpoint parse_int_loop (mem : list Z) (c v p : Z) : option (Z * Z) :=
  if Z.land c 0x80 =? 0 then Some (v, p)
  else match mem with
       | [] => None
       | b :: mem' =>
           let c := uint8 b in
           parse_int_loop mem' c
             (uint32 (Z.lor (Z.shiftl v 7) (Z.land c 0x7f))) (p + 1)
       end.

(** [parse_int(&p)] on the buffer [buf] with the cursor at offset [p]:
    the value and the new cursor. *)
Definition parse_int (buf : list Z) (p : Z) : option (Z * Z) :=
  match skipn (Z.to_nat p) buf with
  | [] => None
  | b :: mem =>
      let c := uint8 b in
      let v := Z.land c 0x7f in
      let v := if Z.land c 0x60 =? 0x60 then uint32 (Z.lor v (-0x20)) else v in
      parse_int_loop mem c v (p + 1)
  end.


(** ** State of the firmware *)

(** The process-wide state that [command.c] reads and writes: its two
    static variables, the console transport and the shutdown status. *)
Record mcu : Type := {
  next_sequence : Z;              (* static uint8_t next_sequence *)
  sync_state : Z;                 (* static uint8_t sync_state *)
  console_input : list Z;         (* received bytes, not yet popped *)
  console_output : list (list Z); (* messages pushed, oldest first *)
  console_room : Z;               (* bytes that can still be reserved *)
  is_shutdown : bool;             (* sched_is_shutdown() *)
  shutdown_reason : Z;            (* sched_shutdown_reason() *)
  dispatched : list (Z * list Z)  (* handler calls made, oldest first *)
}.

Definition set_next_sequence (v : Z) (s : mcu) : mcu :=
  {| next_sequence := v; sync_state := sync_state s;
     console_input := console_input s; console_output := console_output s;
     console_room := console_room s; is_shutdown := is_shutdown s;
     shutdown_reason := shutdown_reason s; dispatched := dispatched s |}.

Definition set_sync_state (v : Z) (s : mcu) : mcu :=
  {| next_sequence := next_sequence s; sync_state := v;
     console_input := console_input s; console_output := console_output s;
     console_room := console_room s; is_shutdown := is_shutdown s;
     shutdown_reason := shutdown_reason s; dispatched := dispatched s |}.

Definition log_dispatch (cmdid : Z) (args : list Z) (s : mcu) : mcu :=
  {| next_sequence := next_sequence s; sync_state := sync_state s;
     console_input := console_input s; console_output := console_output s;
     console_room := console_room s; is_shutdown := is_shutdown s;
     shutdown_reason := shutdown_reason s;
     dispatched := dispatched s ++ [(cmdid, args)] |}.

(** The initial values of the two static variables. *)
Definition initial_next_sequence : Z := MESSAGE_DEST.
Definition initial_sync_state : Z := 0.

(** ** Outcome of a call *)

(** A call returns, or ends in [shutdown()] (which does not return), or
    reads memory that the model does not hold (undefined in C). *)
Inductive outcome (A : Type) : Type :=
| Returns (a : A) (s : mcu)
| Shutdown (reason : string) (s : mcu)
| Undefined.
Arguments Returns {A} a s.
Arguments Shutdown {A} reason s.
Arguments Undefined {A}.

Definition bind {A B : Type} (m : outcome A) (k : A -> mcu -> outcome B)
  : outcome B :=
  match m with
  | Returns a s => k a s
  | Shutdown reason s => Shutdown reason s
  | Undefined => Undefined
  end.

Notation "x <- m ;; k" := (bind m (fun x => k))
  (at level 61, m at next level, right associativity).

(** [shutdown(msg)] *)
Definition shutdown {A : Type} (msg : string) (s : mcu) : outcome A :=
  Shutdown msg s.

(** ** Console transport *)

(** Modelled from the spec: the transport of section 6, which is not part
    of [command.c].  [console_get_input] gives the contiguous view of the
    received bytes and its length, [console_pop_input] consumes bytes from
    its front, [console_get_output] reserves output space if the transport
    has it, and [console_push_output] publishes the first [len] bytes of
    the reservation. *)
Definition console_get_input (s : mcu) : list Z * Z :=
  (console_input s, Z.of_nat (length (console_input s))).

Definition console_pop_input (len : Z) (s : mcu) : mcu :=
  {| next_sequence := next_sequence s; sync_state := sync_state s;
     console_input := skipn (Z.to_nat len) (console_input s);
     console_output := console_output s;
     console_room := console_room s; is_shutdown := is_shutdown s;
     shutdown_reason := shutdown_reason s; dispatched := dispatched s |}.

Definition console_get_output (len : Z) (s : mcu) : bool :=
  len <=? console_room s.

Definition console_push_output (buf : list Z) (len : Z) (s : mcu) : mcu :=
  {| next_sequence := next_sequence s; sync_state := sync_state s;
     console_input := console_input s;
     console_output := console_output s ++ [firstn (Z.to_nat len) buf];
     console_room := console_room s - len; is_shutdown := is_shutdown s;
     shutdown_reason := shutdown_reason s; dispatched := dispatched s |}.

(** ** Schema entries *)

(** [struct command_encoder] and [struct command_parser] of the absent
    [command.h], with the fields that [command.c] reads. *)
Module command_encoder.
Record t : Type := {
  msg_id : Z;
  max_size : Z;
  num_params : Z;
  param_types : list Z
}.
End command_encoder.

Module command_parser.
Record t : Type := {
  num_args : Z;
  flags : Z;
  num_params : Z;
  param_types : list Z;
  func : list Z -> mcu -> outcome unit
}.
End command_parser.

(** Modelled from the spec: the encoder that the build generates for the
    empty format string, the empty-payload message of section 4.3.2.  Its
    [msg_id] is never read. *)
Definition encoder_empty : command_encoder.t :=
  {| command_encoder.msg_id := 0; command_encoder.max_size := 0;
     command_encoder.num_params := 0; command_encoder.param_types := [] |}.

(** The variadic arguments of [_sendf]: integers and pointers to the
    bytes they point at. *)
Inductive va_item : Type :=
| VA_int (v : Z)
| VA_ptr (mem : list Z).

(** [memchr(buf, c, n)]: the offset of the first of the first [n] bytes
    of [buf] that equals [c]. *)
Fixpoint memchr_from (buf : list Z) (c : Z) (n : nat) (i : Z) : option Z :=
  match n, buf with
  | S n', b :: buf' =>
      if uint8 b =? uint8 c then Some i else memchr_from buf' c n' (i + 1)
  | _, _ => None
  end.

Definition memchr (buf : list Z) (c : Z) (n : Z) : option Z :=
  memchr_from buf c (Z.to_nat n) 0.

(** The copy loop of the [PT_string] case of [_sendf],
    which copies [*s] to [*p] and advances both while [*s] is not NUL
    and [p < maxend]; [room] is [maxend - p]. *)
Fixpoint copy_string (s : list Z) (room : nat) : option (list Z) :=
  match room with
  | O => Some []
  | S room' =>
      match s with
      | [] => None
      | c :: s' =>
          if uint8 c =? 0 then Some []
          else option_map (cons (uint8 c)) (copy_string s' room')
      end
  end.

(** [memcpy(p, s, v)]: the [v] bytes copied. *)
Definition memcpy (s : list Z) (v : Z) : option (list Z) :=
  if Z.of_nat (length s) <? v then None
  else Some (map uint8 (firstn (Z.to_nat v) s)).

(** ** Auxiliary definitions of the VLQ proofs *)

(** The digit of weight [128^k] of [v], as [encode_int] extracts it. *)
Definition vlq_digit (v k : Z) : Z := Z.land (Z.shiftr v (7 * k)) 0x7f.

(** The bytes that the labels [f4] .. [f1] of [encode_int] append. *)
Definition vlq_tail4 (u : Z) : list Z := [uint8 (vlq_digit u 0)].
Definition vlq_tail3 (u : Z) : list Z :=
  uint8 (Z.lor (vlq_digit u 1) 0x80) :: vlq_tail4 u.
Definition vlq_tail2 (u : Z) : list Z :=
  uint8 (Z.lor (vlq_digit u 2) 0x80) :: vlq_tail3 u.
Definition vlq_tail1 (u : Z) : list Z :=
  uint8 (Z.lor (vlq_digit u 3) 0x80) :: vlq_tail2 u.

(** The first byte of [parse_int]: the seven payload bits, sign-extended
    when bits 5 and 6 are both set. *)
Definition vlq_first (d : Z) : Z :=
  if 96 <=? d then 4294967296 + d - 128 else d.

(** ** The protocol core *)

(** What [command.c] takes from the board and from the build: the macro
    [HAVE_OPTIMIZED_CRC] and the board's own [_crc16_ccitt] of
    [board/misc.h], the signedness of [char] of the compiler, the flag
    [HF_IN_SHUTDOWN] and the tables [command_index] and
    [command_index_size] of [command.h], and the encoder that the build
    generates for the [is_shutdown] response. *)
Module board.
Record t : Type := {
  HAVE_OPTIMIZED_CRC : bool;
  _crc16_ccitt : list Z -> Z;
  CHAR_IS_SIGNED : bool;
  HF_IN_SHUTDOWN : Z;
  command_index : Z -> option command_parser.t;
  command_index_size : Z;
  encoder_is_shutdown : command_encoder.t
}.
End board.

(** ** A concrete board and schema *)

(** A handler that does nothing, for a command [7] with one [uint32]
    parameter, and the same command with a second parameter and with a
    [buffer] parameter. *)
Definition example_parser : command_parser.t :=
  {| command_parser.num_args := 1; command_parser.flags := 0;
     command_parser.num_params := 1;
     command_parser.param_types := [PT_uint32];
     command_parser.func := fun _ s => Returns tt s |}.

Definition example_parser2 : command_parser.t :=
  {| command_parser.num_args := 2; command_parser.flags := 0;
     command_parser.num_params := 2;
     command_parser.param_types := [PT_uint32; PT_uint32];
     command_parser.func := fun _ s => Returns tt s |}.

Definition example_parser_buffer : command_parser.t :=
  {| command_parser.num_args := 2; command_parser.flags := 0;
     command_parser.num_params := 1;
     command_parser.param_types := [PT_buffer];
     command_parser.func := fun _ s => Returns tt s |}.

(** A board with signed [char] and the generic CRC loop, whose command
    index holds [parser] as command 7. *)
Definition example_board (parser : command_parser.t) : board.t :=
  {| board.HAVE_OPTIMIZED_CRC := false;
     board._crc16_ccitt := fun _ => 0;
     board.CHAR_IS_SIGNED := true;
     board.HF_IN_SHUTDOWN := 1;
     board.command_index := fun i => if i =? 7 then Some parser else None;
     board.command_index_size := 8;
     board.encoder_is_shutdown :=
       {| command_encoder.msg_id := 2; command_encoder.max_size := 4;
          command_encoder.num_params := 1;
          command_encoder.param_types := [PT_uint16] |} |}.

(** The state after reset with [input] received and [room] bytes of
    output space, running or in shutdown with reason 9. *)
Definition example_state (input : list Z) (room : Z) (down : bool) : mcu :=
  {| next_sequence := initial_next_sequence;
     sync_state := initial_sync_state;
     console_input := input; console_output := []; console_room := room;
     is_shutdown := down; shutdown_reason := 9; dispatched := [] |}.

Section Core.

#[local] Set Default Proof Using "Type".

Variable B : board.t.

Local Abbreviation HAVE_OPTIMIZED_CRC := (board.HAVE_OPTIMIZED_CRC B).
Local Abbreviation _crc16_ccitt := (board._crc16_ccitt B).
Local Abbreviation CHAR_IS_SIGNED := (board.CHAR_IS_SIGNED B).
Local Abbreviation HF_IN_SHUTDOWN := (board.HF_IN_SHUTDOWN B).
Local Abbreviation command_index := (board.command_index B).
Local Abbreviation command_index_size := (board.command_index_size B).
Local Abbreviation encoder_is_shutdown := (board.encoder_is_shutdown B).

(** The value of a memory byte read through a [char] lvalue. *)
Definition char_val (b : Z) : Z :=
  let u := uint8 b in
  if CHAR_IS_SIGNED && (128 <=? u) then u - 256 else u.

(** *** CRC engine *)

(** The body of the [while (len--)] loop of [crc16_ccitt], over the
    bytes that the loop reads. *)
Fixpoint crc16_ccitt_loop (bytes : list Z) (crc : Z) : Z :=
  match bytes with
  | [] => crc
  | b :: bytes' =>
      let data := uint8 (char_val b) in
      let data := uint8 (Z.lxor data (Z.land crc 0xff)) in
      let data := uint8 (Z.lxor data (Z.shiftl data 4)) in
      let crc :=
        uint16 (Z.lxor
                  (Z.lxor (Z.lor (Z.shiftl (uint16 data) 8) (Z.shiftr crc 8))
                          (uint8 (Z.shiftr data 4)))
                  (Z.shiftl (uint16 data) 3)) in
      crc16_ccitt_loop bytes' crc
  end.

(** [crc16_ccitt(buf, len)].  The board's [_crc16_ccitt(buf, len)] is
    given the [len] bytes that it may read. *)
Definition crc16_ccitt (buf : list Z) (len : Z) : Z :=
  let len := uint8 len in
  let bytes := firstn (Z.to_nat len) buf in
  if HAVE_OPTIMIZED_CRC then uint16 (_crc16_ccitt bytes)
  else crc16_ccitt_loop bytes 0xffff.

(** *** Transmission *)

Definition is_vlq_type (t : Z) : bool :=
  (t =? PT_uint32) || (t =? PT_int32) || (t =? PT_uint16)
  || (t =? PT_int16) || (t =? PT_byte).

(** The parameter loop of [_sendf].  [out] holds the bytes written from
    [&buf[MESSAGE_HEADER_SIZE]] on, so the cursor [p] is at offset
    [MESSAGE_HEADER_SIZE + length out] of [buf]; [maxend] is an offset
    of [buf] as well. *)
Fixpoint sendf_params (num_params : nat) (param_types : list Z)
    (args : list va_item) (maxend : Z) (out : list Z) (s : mcu)
  : outcome (list Z) :=
  match num_params with
  | O => Returns out s
  | S num_params' =>
      let p := MESSAGE_HEADER_SIZE + Z.of_nat (length out) in
      if p >? maxend then shutdown "Message encode error" s
      else
        match param_types with
        | [] => Undefined
        | t :: param_types' =>
            if is_vlq_type t then
              match args with
              | VA_int a :: args' =>
                  let v := if t >=? PT_uint16 then Z.land a 0xffff
                           else uint32 a in
                  sendf_params num_params' param_types' args' maxend
                    (encode_int out v) s
              | _ => Undefined
              end
            else if t =? PT_string then
              match args with
              | VA_ptr str :: args' =>
                  (* lenp = p++ *)
                  match copy_string str (Z.to_nat (maxend - (p + 1))) with
                  | Some chars =>
                      sendf_params num_params' param_types' args' maxend
                        (put out (Z.of_nat (length chars)) ++ chars) s
                  | None => Undefined
                  end
              | _ => Undefined
              end
            else if (t =? PT_progmem_buffer) || (t =? PT_buffer) then
              match args with
              | VA_int a :: VA_ptr src :: args' =>
                  let v := uint32 a in
                  let v := if v >? maxend - p then maxend - p else v in
                  match memcpy src v with
                  | Some bytes =>
                      sendf_params num_params' param_types' args' maxend
                        (put out v ++ bytes) s
                  | None => Undefined
                  end
              | _ => Undefined
              end
            else shutdown "Message encode error" s
        end
  end.

(** The payload that [_sendf] encodes for [cp]: nothing when
    [max_size] is zero, else the message id and the parameters. *)
Definition sendf_payload (cp : command_encoder.t) (args : list va_item)
    (s : mcu) : outcome (list Z) :=
  let max_size := uint8 (command_encoder.max_size cp) in
  if max_size =? 0 then Returns [] s
  else
    let maxend := MESSAGE_HEADER_SIZE + max_size in
    let num_params := uint8 (command_encoder.num_params cp) in
    sendf_params (Z.to_nat num_params) (command_encoder.param_types cp)
      args maxend (put [] (command_encoder.msg_id cp)) s.

(** "Send message to serial port": the frame that [_sendf] builds
    around the payload [out], stamped with [seq]. *)
Definition sendf_frame (seq : Z) (out : list Z) : list Z :=
  let p := MESSAGE_HEADER_SIZE + Z.of_nat (length out) in
  let msglen := uint8 (p + MESSAGE_TRAILER_SIZE) in
  let buf := [uint8 msglen; uint8 seq] ++ out in
  let crc := crc16_ccitt buf p in
  let buf := put buf (Z.shiftr crc 8) in
  let buf := put buf crc in
  put buf MESSAGE_SYNC.

Definition _sendf (cp : command_encoder.t) (args : list va_item) (s : mcu)
  : outcome unit :=
  let max_size := uint8 (command_encoder.max_size cp) in
  if negb (console_get_output (uint8 (max_size + MESSAGE_MIN)) s)
  then Returns tt s
  else
    out <- sendf_payload cp args s ;;
    fun s =>
      let p := MESSAGE_HEADER_SIZE + Z.of_nat (length out) in
      let msglen := uint8 (p + MESSAGE_TRAILER_SIZE) in
      Returns tt
        (console_push_output (sendf_frame (next_sequence s) out) msglen s).

(** *** Reception *)

(** Label [nak] of [command_get_message]. *)
Definition command_get_message_nak (s : mcu) : outcome (option (list Z)) :=
  _ <- _sendf encoder_empty [] s ;;
  Returns None.

(** Label [need_sync] of [command_get_message]. *)
Definition command_get_message_need_sync (buf : list Z) (buf_len : Z)
    (s : mcu) : outcome (option (list Z)) :=
  let s :=
    match memchr buf MESSAGE_SYNC buf_len with
    | Some next_sync =>
        let s :=
          set_sync_state
            (uint8 (Z.land (sync_state s) (Z.lnot CF_NEED_SYNC))) s in
        console_pop_input (next_sync + 1) s
    | None => console_pop_input buf_len s
    end in
  if negb (Z.land (sync_state s) CF_NEED_VALID =? 0) then Returns None s
  else
    let s := set_sync_state (uint8 (Z.lor (sync_state s) CF_NEED_VALID)) s in
    command_get_message_nak s.

(** Label [error] of [command_get_message]. *)
Definition command_get_message_error (buf : list Z) (buf_len : Z)
    (s : mcu) : outcome (option (list Z)) :=
  if char_val (peek buf 0) =? MESSAGE_SYNC
  then Returns None (console_pop_input 1 s)
  else
    let s := set_sync_state (uint8 (Z.lor (sync_state s) CF_NEED_SYNC)) s in
    command_get_message_need_sync buf buf_len s.

(** [msgcrc] as [command_get_message] reads it from the trailer. *)
Definition trailer_crc (buf : list Z) (msglen : Z) : Z :=
  uint16 (Z.lor (Z.shiftl (char_val (peek buf (msglen - MESSAGE_TRAILER_CRC))) 8)
                (uint8 (char_val (peek buf (msglen - MESSAGE_TRAILER_CRC + 1))))).

(** [command_get_message] from [sync_state &= ~CF_NEED_VALID] on: the
    CRC of the frame has been found correct. *)
Definition command_get_message_valid (buf : list Z) (msglen msgseq : Z)
    (s : mcu) : outcome (option (list Z)) :=
  let s :=
    set_sync_state (uint8 (Z.land (sync_state s) (Z.lnot CF_NEED_VALID))) s in
  if negb (msgseq =? next_sequence s) then
    command_get_message_nak (console_pop_input msglen s)
  else
    let s :=
      set_next_sequence
        (uint8 (Z.lor (Z.land (msgseq + 1) MESSAGE_SEQ_MASK) MESSAGE_DEST)) s in
    _ <- _sendf encoder_empty [] s ;;
    Returns (Some buf).

Definition command_get_message (s : mcu) : outcome (option (list Z)) :=
  let '(buf, buf_len) := console_get_input s in
  if negb (buf_len =? 0) && negb (Z.land (sync_state s) CF_NEED_SYNC =? 0)
  then command_get_message_need_sync buf buf_len s
  else if buf_len <? MESSAGE_MIN then Returns None s
  else
    let msglen := uint8 (char_val (peek buf MESSAGE_POS_LEN)) in
    if (msglen <? MESSAGE_MIN) || (msglen >? MESSAGE_MAX)
    then command_get_message_error buf buf_len s
    else
      let msgseq := uint8 (char_val (peek buf MESSAGE_POS_SEQ)) in
      if negb (Z.land msgseq (Z.lnot MESSAGE_SEQ_MASK) =? MESSAGE_DEST)
      then command_get_message_error buf buf_len s
      else if buf_len <? msglen then Returns None s
      else if negb (char_val (peek buf (msglen - MESSAGE_TRAILER_SYNC))
                    =? MESSAGE_SYNC)
      then command_get_message_error buf buf_len s
      else
        let msgcrc := trailer_crc buf msglen in
        let crc := crc16_ccitt buf (msglen - MESSAGE_TRAILER_SIZE) in
        if negb (crc =? msgcrc)
        then command_get_message_error buf buf_len s
        else command_get_message_valid buf msglen msgseq s.

(** *** Command codec *)

(** The parameter loop of [parsef]: [p] and [maxend] are offsets of the
    input buffer [buf]; [args] holds the values stored through
    [*args++] so far.  A buffer argument is stored as its length and
    the offset of its first byte. *)
Fixpoint parsef_params (num_params : nat) (param_types : list Z)
    (buf : list Z) (p maxend : Z) (args : list Z) (s : mcu)
  : outcome (option (Z * list Z)) :=
  match num_params with
  | O => Returns (Some (p, args)) s
  | S num_params' =>
      if p >? maxend then shutdown "Command parser error" s
      else
        match param_types with
        | [] => Undefined
        | t :: param_types' =>
            if is_vlq_type t then
              match parse_int buf p with
              | Some (v, p') =>
                  parsef_params num_params' param_types' buf p' maxend
                    (args ++ [v]) s
              | None => Undefined
              end
            else if t =? PT_buffer then
              match nth_error buf (Z.to_nat p) with
              | Some b =>
                  let len := uint8 (char_val b) in
                  let p := p + 1 in
                  if p + len >? maxend then shutdown "Command parser error" s
                  else
                    parsef_params num_params' param_types' buf (p + len)
                      maxend (args ++ [len; p]) s
              | None => Undefined
              end
            else shutdown "Command parser error" s
        end
  end.

(** [parsef]: [None] is the [NULL] that tells the caller to skip. *)
Definition parsef (buf : list Z) (p maxend : Z) (cp : command_parser.t)
    (s : mcu) : outcome (option (Z * list Z)) :=
  if is_shutdown s
     && (Z.land (command_parser.flags cp) HF_IN_SHUTDOWN =? 0)
  then
    _ <- _sendf encoder_is_shutdown [VA_int (shutdown_reason s)] s ;;
    Returns None
  else
    let num_params := uint8 (command_parser.num_params cp) in
    parsef_params (Z.to_nat num_params) (command_parser.param_types cp)
      buf p maxend [] s.

(** *** Command routing *)

Definition command_get_handler (cmdid : Z) (s : mcu)
  : outcome command_parser.t :=
  if cmdid >=? command_index_size then shutdown "Invalid command" s
  else
    match command_index cmdid with
    | None => shutdown "Invalid command" s
    | Some cp => Returns cp s
    end.

(** The [while (p < msgend)] loop of [command_task].  Every iteration
    moves [p] forward, so [fuel] bounds the number of iterations by the
    number of bytes left. *)
Fixpoint command_task_loop (fuel : nat) (buf : list Z) (p msgend : Z)
    (s : mcu) : outcome unit :=
  if negb (p <? msgend) then Returns tt s
  else
    match fuel with
    | O => Returns tt s
    | S fuel' =>
        let cmdid := uint8 (char_val (peek buf p)) in
        let p := p + 1 in
        cp <- command_get_handler cmdid s ;;
        fun s =>
          r <- parsef buf p msgend cp s ;;
          fun s =>
            match r with
            | None => Returns tt s
            | Some (p, args) =>
                _ <- command_parser.func cp args (log_dispatch cmdid args s) ;;
                command_task_loop fuel' buf p msgend
            end
    end.

Definition command_task (s : mcu) : outcome unit :=
  buf <- command_get_message s ;;
  fun s =>
    match buf with
    | None => Returns tt s
    | Some buf =>
        let msglen := uint8 (char_val (peek buf MESSAGE_POS_LEN)) in
        let p := MESSAGE_HEADER_SIZE in
        let msgend := msglen - MESSAGE_TRAILER_SIZE in
        _ <- command_task_loop (Z.to_nat (msgend - p)) buf p msgend s ;;
        fun s => Returns tt (console_pop_input msglen s)
    end.

(** *** Auxiliary definitions of the frame proofs *)

(** What [command_task] takes from the frame that
    [command_get_message] returned: the length byte, the bytes that [p]
    walks from [&buf[MESSAGE_HEADER_SIZE]] to [msgend], and the
    sequence bits of the SEQ byte. *)
Definition frame_msglen (buf : list Z) : Z :=
  uint8 (char_val (peek buf MESSAGE_POS_LEN)).

Definition frame_msgseq (buf : list Z) : Z :=
  uint8 (char_val (peek buf MESSAGE_POS_SEQ)).

Definition frame_payload (buf : list Z) : list Z :=
  let p := MESSAGE_HEADER_SIZE in
  let msgend := frame_msglen buf - MESSAGE_TRAILER_SIZE in
  firstn (Z.to_nat (msgend - p)) (skipn (Z.to_nat p) buf).

(** The command id that [command_task] reads at offset [p]. *)
Definition frame_cmdid (buf : list Z) (p : Z) : Z :=
  uint8 (char_val (peek buf p)).

Definition frame_seq (buf : list Z) : Z :=
  Z.land (frame_msgseq buf) MESSAGE_SEQ_MASK.

(** The big-endian unsigned 16-bit value of two memory bytes. *)
Definition be16 (hi lo : Z) : Z := 256 * uint8 hi + uint8 lo.

(** A flag of [sync_state] is set. *)
Definition has_flag (x f : Z) : bool := negb (Z.land x f =? 0).

(** The conditions under which [command_get_message] reaches its CRC
    comparison (step 7 of section 4.3.1 of the specification). *)
Definition reaches_crc_check (s : mcu) : bool :=
  let '(buf, buf_len) := console_get_input s in
  let msglen := frame_msglen buf in
  ((buf_len =? 0) || negb (has_flag (sync_state s) CF_NEED_SYNC))
  && (MESSAGE_MIN <=? buf_len)
  && (MESSAGE_MIN <=? msglen) && (msglen <=? MESSAGE_MAX)
  && (Z.land (frame_msgseq buf) (Z.lnot MESSAGE_SEQ_MASK) =? MESSAGE_DEST)
  && (msglen <=? buf_len)
  && (char_val (peek buf (msglen - MESSAGE_TRAILER_SYNC)) =? MESSAGE_SYNC).

(** The frame invariants of section 3 of the specification hold of the
    front of the input and its CRC check passes. *)
Definition crc_check_passes (s : mcu) : bool :=
  reaches_crc_check s
  && (crc16_ccitt (console_input s)
        (frame_msglen (console_input s) - MESSAGE_TRAILER_SIZE)
      =? trailer_crc (console_input s) (frame_msglen (console_input s))).

(** The messages pushed once [sendf] of the empty message has run in
    state [s]: one more if the transport had room for it. *)
Definition nak_output (s : mcu) : list (list Z) :=
  if console_get_output MESSAGE_MIN s
  then console_output s ++ [sendf_frame (next_sequence s) []]
  else console_output s.

(** The number of messages pushed so far, plus one while the
    [CF_NEED_VALID] latch is clear: a NAK of the resync path uses up
    the latch. *)
Definition nak_budget (s : mcu) : Z :=
  Z.of_nat (length (console_output s))
  + (if has_flag (sync_state s) CF_NEED_VALID then 0 else 1).

(** Between two polls the transport receives bytes and drains output:
    [arrive] models the first by appending to the input and the second
    by setting the room. *)
Definition arrive (bytes : list Z) (room : Z) (s : mcu) : mcu :=
  {| next_sequence := next_sequence s; sync_state := sync_state s;
     console_input := console_input s ++ bytes;
     console_output := console_output s;
     console_room := room; is_shutdown := is_shutdown s;
     shutdown_reason := shutdown_reason s; dispatched := dispatched s |}.

(** A run of polls of [command_get_message], each after an arrival, in
    which no poll finds a frame whose CRC check passes; [None] if some
    poll does, or if a poll does not return. *)
Fixpoint invalid_run (arrivals : list (list Z * Z)) (s : mcu) : option mcu :=
  match arrivals with
  | [] => Some s
  | (bytes, room) :: arrivals' =>
      let s := arrive bytes room s in
      if crc_check_passes s then None
      else
        match command_get_message s with
        | Returns _ s' => invalid_run arrivals' s'
        | _ => None
        end
  end.

(** *** Auxiliary definitions of the further properties *)



(** [sync_state] after label [need_sync], when [found] tells whether
    [memchr] found a sync byte. *)
Definition sync_state_after_need_sync (found : bool) (x : Z) : Z :=
  let x := if found then uint8 (Z.land x (Z.lnot CF_NEED_SYNC)) else x in
  if has_flag x CF_NEED_VALID then x else uint8 (Z.lor x CF_NEED_VALID).

(** The value that [_sendf] hands to [encode_int] for an integer
    argument [a] of type [t]. *)
Definition sendf_int (t a : Z) : Z :=
  if t >=? PT_uint16 then Z.land a 0xffff else uint32 a.

(** The host side of the command codec: a command is its id byte
    followed by the VLQ of each argument, and a payload is the commands
    one after the other.  [out] is the output written so far. *)
Definition encode_args (args : list Z) (out : list Z) : list Z :=
  fold_left encode_int args out.

Fixpoint encode_commands (cmds : list (Z * list Z)) (out : list Z) : list Z :=
  match cmds with
  | [] => out
  | (cmdid, args) :: cmds' =>
      encode_commands cmds' (encode_args args (put out cmdid))
  end.

(** The parser [cp] takes [args]: as many parameters, all of integer
    type. *)
Definition command_fits (cp : command_parser.t) (args : list Z) : Prop :=
  Z.to_nat (uint8 (command_parser.num_params cp)) = length args
  /\ exists types rest,
       command_parser.param_types cp = types ++ rest
       /\ length types = length args
       /\ Forall (fun t => is_vlq_type t = true) types.

(** What the dispatcher does with a list of decoded commands: for each
    in turn, look the handler up, apply the shutdown guard, and call the
    handler with the 32-bit argument values. *)
Fixpoint dispatch_commands (cmds : list (Z * list Z)) (s : mcu)
  : outcome unit :=
  match cmds with
  | [] => Returns tt s
  | (cmdid, args) :: cmds' =>
      cp <- command_get_handler (uint8 cmdid) s ;;
      fun s =>
        if is_shutdown s
           && (Z.land (command_parser.flags cp) HF_IN_SHUTDOWN =? 0)
        then _sendf encoder_is_shutdown [VA_int (shutdown_reason s)] s
        else
          _ <- command_parser.func cp (map uint32 args)
                 (log_dispatch (uint8 cmdid) (map uint32 args) s) ;;
          dispatch_commands cmds'
  end.

(** One turn of the loop of [crc16_ccitt]: the CRC after the byte [b],
    and its two halves, the mixing of the byte and the folding into the
    16-bit state. *)
Definition crc16_mix (data : Z) : Z := uint8 (Z.lxor data (Z.shiftl data 4)).

Definition crc16_fold (data hi : Z) : Z :=
  uint16 (Z.lxor
            (Z.lxor (Z.lor (Z.shiftl (uint16 data) 8) hi)
                    (uint8 (Z.shiftr data 4)))
            (Z.shiftl (uint16 data) 3)).

Definition crc16_step (crc b : Z) : Z :=
  crc16_fold
    (crc16_mix (uint8 (Z.lxor (uint8 (char_val b)) (Z.land crc 0xff))))
    (Z.shiftr crc 8).

(** All bytes. *)
Definition all_bytes : list Z := map Z.of_nat (seq 0 256).
(** ** Bit-level facts used by the codec proofs *)

(** Linear arithmetic with division and modulus by constants.  Variables
    of function type are put aside first. *)
Ltac div_mod_lia :=
  repeat match goal with
         | f : _ -> _ |- _ => clear f
         end;
  Z.div_mod_to_equations; lia.

Lemma byte_cases (P : Z -> bool) :
  forallb P (map Z.of_nat (seq 0 256)) = true ->
  forall c, 0 <= c < 256 -> P c = true.
Proof.
  intros H c Hc. rewrite forallb_forall in H. apply H.
  apply in_map_iff. exists (Z.to_nat c). split; [lia|].
  apply in_seq. lia.
Qed.

Lemma uint8_range x : 0 <= uint8 x < 256.
Proof. unfold uint8. apply Z.mod_pos_bound. lia. Qed.

Lemma uint16_range x : 0 <= uint16 x < 65536.
Proof. unfold uint16. apply Z.mod_pos_bound. lia. Qed.

Lemma uint32_range x : 0 <= uint32 x < 4294967296.
Proof. unfold uint32. apply Z.mod_pos_bound. lia. Qed.

Lemma land_7f x : Z.land x 0x7f = x mod 128.
Proof. change 0x7f with (Z.ones 7). rewrite Z.land_ones by lia. reflexivity. Qed.

Lemma lor_shiftl_low a n y :
  0 <= n -> 0 <= y < 2 ^ n -> Z.lor (Z.shiftl a n) y = a * 2 ^ n + y.
Proof.
  intros Hn Hy.
  assert (E : Z.land (Z.shiftl a n) y = 0).
  { apply Z.bits_inj'. intros i Hi.
    rewrite Z.land_spec, Z.bits_0.
    destruct (Z.ltb_spec i n) as [Hlt|Hge].
    - rewrite Z.shiftl_spec_low by lia. reflexivity.
    - replace y with (y mod 2 ^ n) by (apply Z.mod_small; lia).
      rewrite Z.mod_pow2_bits_high by lia. apply andb_false_r. }
  pose proof (Z.add_lor_land (Z.shiftl a n) y) as H.
  rewrite E, Z.shiftl_mul_pow2 in H by lia.
  rewrite Z.shiftl_mul_pow2 by lia. lia.
Qed.

Ltac by_bytes c P :=
  let H := fresh "Hb" in
  pose proof (byte_cases P ltac:(vm_compute; reflexivity) c ltac:(lia)) as H;
  cbv beta in H;
  rewrite ?orb_true_iff, ?Z.leb_le, ?Z.ltb_lt, ?Z.eqb_eq in H.

Lemma byte_cont y : 0 <= y < 128 -> uint8 (Z.lor y 0x80) = y + 128.
Proof.
  intros Hy.
  by_bytes y (fun y => (128 <=? y) || (uint8 (Z.lor y 0x80) =? y + 128)).
  lia.
Qed.

Lemma land_80_cont c : 128 <= c < 256 -> (Z.land c 0x80 =? 0) = false.
Proof.
  intros Hc.
  by_bytes c (fun c => (c <? 128) || (Z.land c 0x80 =? 128)).
  apply Z.eqb_neq. lia.
Qed.

Lemma land_80_last c : 0 <= c < 128 -> (Z.land c 0x80 =? 0) = true.
Proof.
  intros Hc.
  by_bytes c (fun c => (128 <=? c) || (Z.land c 0x80 =? 0)).
  apply Z.eqb_eq. lia.
Qed.

Lemma land_60_sign c :
  0 <= c < 256 -> (Z.land c 0x60 =? 0x60) = (96 <=? c mod 128).
Proof.
  intros Hc.
  pose proof (byte_cases
    (fun c => Bool.eqb (Z.land c 0x60 =? 0x60) (96 <=? c mod 128))
    ltac:(vm_compute; reflexivity) c Hc) as H.
  apply Bool.eqb_prop in H. exact H.
Qed.

Lemma lor_sign_extend y :
  96 <= y < 128 -> uint32 (Z.lor y (-0x20)) = 4294967296 + y - 128.
Proof.
  intros Hy.
  by_bytes y (fun y => (y <? 96) || (128 <=? y)
                       || (uint32 (Z.lor y (-0x20)) =? 4294967296 + y - 128)).
  lia.
Qed.

(** ** VLQ round trip *)

Lemma lor_shiftl_7 v y : 0 <= y < 128 -> Z.lor (Z.shiftl v 7) y = v * 128 + y.
Proof. intros Hy. rewrite lor_shiftl_low; lia. Qed.

Lemma parse_int_loop_cont b mem c v p :
  128 <= c < 256 ->
  parse_int_loop (b :: mem) c v p =
  parse_int_loop mem (uint8 b)
    (uint32 (v * 128 + uint8 b mod 128)) (p + 1).
Proof.
  intros Hc. cbn [parse_int_loop]. rewrite land_80_cont by lia.
  cbv zeta. rewrite land_7f, lor_shiftl_7; [reflexivity|].
  apply Z.mod_pos_bound. lia.
Qed.

Lemma parse_int_loop_last mem c v p :
  0 <= c < 128 -> parse_int_loop mem c v p = Some (v, p).
Proof.
  intros Hc. destruct mem; simpl; rewrite land_80_last by lia; reflexivity.
Qed.

Lemma vlq_digit_eq v k : 0 <= k -> vlq_digit v k = (v / 2 ^ (7 * k)) mod 128.
Proof.
  intros Hk. unfold vlq_digit. rewrite land_7f, Z.shiftr_div_pow2 by lia.
  reflexivity.
Qed.

Lemma vlq_digit_range v k : 0 <= k -> 0 <= vlq_digit v k < 128.
Proof.
  intros Hk. rewrite vlq_digit_eq by lia. apply Z.mod_pos_bound. lia.
Qed.

Lemma uint32_step a b : uint32 (uint32 a * 128 + b) = uint32 (a * 128 + b).
Proof.
  unfold uint32.
  rewrite Z.add_mod, Z.mul_mod_idemp_l, <- Z.add_mod by lia. reflexivity.
Qed.

Lemma uint32_digits u :
  0 <= u < 4294967296 ->
  u = vlq_digit u 0 + 128 * (vlq_digit u 1 + 128 * (vlq_digit u 2
        + 128 * (vlq_digit u 3 + 128 * (u / 2 ^ 28)))).
Proof.
  intros Hu. rewrite !vlq_digit_eq by lia.
  change (2 ^ (7 * 0)) with 1. change (2 ^ (7 * 1)) with 128.
  change (2 ^ (7 * 2)) with (128 * 128).
  change (2 ^ (7 * 3)) with (128 * 128 * 128).
  change (2 ^ 28) with (128 * 128 * 128 * 128).
  rewrite <- !Z.div_div by lia. rewrite Z.div_1_r.
  pose proof (Z.div_mod u 128 ltac:(lia)).
  pose proof (Z.div_mod (u / 128) 128 ltac:(lia)).
  pose proof (Z.div_mod (u / 128 / 128) 128 ltac:(lia)).
  pose proof (Z.div_mod (u / 128 / 128 / 128) 128 ltac:(lia)).
  lia.
Qed.

Lemma skipn_length_app {A} (pre l : list A) :
  skipn (Z.to_nat (Z.of_nat (length pre))) (pre ++ l) = l.
Proof.
  rewrite Nat2Z.id, skipn_app, skipn_all, Nat.sub_diag. reflexivity.
Qed.

Lemma int32_small u : 0 <= u < 2147483648 -> int32 u = u.
Proof.
  intros H. unfold int32, uint32. rewrite Z.mod_small by lia.
  destruct (Z.ltb_spec u 2147483648); lia.
Qed.

Lemma int32_large u : 2147483648 <= u < 4294967296 -> int32 u = u - 4294967296.
Proof.
  intros H. unfold int32, uint32. rewrite Z.mod_small by lia.
  destruct (Z.ltb_spec u 2147483648); lia.
Qed.

Lemma encode_int_f4_app p u : encode_int_f4 p u = p ++ vlq_tail4 u.
Proof. reflexivity. Qed.

Lemma encode_int_f3_app p u : encode_int_f3 p u = p ++ vlq_tail3 u.
Proof.
  unfold encode_int_f3, put. rewrite encode_int_f4_app, <- app_assoc.
  reflexivity.
Qed.

Lemma encode_int_f2_app p u : encode_int_f2 p u = p ++ vlq_tail2 u.
Proof.
  unfold encode_int_f2, put. rewrite encode_int_f3_app, <- app_assoc.
  reflexivity.
Qed.

Lemma encode_int_f1_app p u : encode_int_f1 p u = p ++ vlq_tail1 u.
Proof.
  unfold encode_int_f1, put. rewrite encode_int_f2_app, <- app_assoc.
  reflexivity.
Qed.

Lemma uint8_digit u k : 0 <= k -> uint8 (vlq_digit u k) = vlq_digit u k.
Proof.
  intros Hk. pose proof (vlq_digit_range u k Hk).
  unfold uint8. apply Z.mod_small. lia.
Qed.

Lemma uint8_digit_cont u k :
  0 <= k -> uint8 (Z.lor (vlq_digit u k) 0x80) = vlq_digit u k + 128.
Proof. intros Hk. apply byte_cont, vlq_digit_range, Hk. Qed.

Lemma uint8_idem x : uint8 (uint8 x) = uint8 x.
Proof. unfold uint8. apply Z.mod_mod. lia. Qed.

Lemma cont_mod_128 d : 0 <= d < 128 -> (d + 128) mod 128 = d.
Proof. intros H. rewrite <- (Z.mod_small d 128) at 2 by lia.
  replace (d + 128) with (d + 1 * 128) by lia. apply Z.mod_add. lia. Qed.

Lemma parse_tail4 u post c acc p :
  128 <= c < 256 ->
  parse_int_loop (vlq_tail4 u ++ post) c acc p
  = Some (uint32 (acc * 128 + vlq_digit u 0), p + 1).
Proof.
  intros Hc. pose proof (vlq_digit_range u 0 ltac:(lia)) as H0.
  unfold vlq_tail4. cbn [app]. rewrite parse_int_loop_cont by lia.
  rewrite uint8_idem, uint8_digit by lia.
  rewrite parse_int_loop_last by lia.
  rewrite Z.mod_small by lia. reflexivity.
Qed.

Lemma uint32_step2 a b c :
  uint32 ((uint32 a * 128 + b) * 128 + c) = uint32 ((a * 128 + b) * 128 + c).
Proof.
  transitivity (uint32 (uint32 (uint32 a * 128 + b) * 128 + c)).
  - symmetry. apply uint32_step.
  - rewrite (uint32_step a b). apply uint32_step.
Qed.

Lemma uint32_step3 a b c d :
  uint32 (((uint32 a * 128 + b) * 128 + c) * 128 + d)
  = uint32 (((a * 128 + b) * 128 + c) * 128 + d).
Proof.
  transitivity (uint32 (uint32 ((uint32 a * 128 + b) * 128 + c) * 128 + d)).
  - symmetry. apply uint32_step.
  - rewrite (uint32_step2 a b c). apply uint32_step.
Qed.

Lemma parse_tail3 u post c acc p :
  128 <= c < 256 ->
  parse_int_loop (vlq_tail3 u ++ post) c acc p
  = Some (uint32 ((acc * 128 + vlq_digit u 1) * 128 + vlq_digit u 0), p + 2).
Proof.
  intros Hc. pose proof (vlq_digit_range u 1 ltac:(lia)) as H1.
  unfold vlq_tail3. cbn [app]. rewrite parse_int_loop_cont by lia.
  rewrite uint8_idem, uint8_digit_cont by lia.
  rewrite parse_tail4 by lia. rewrite cont_mod_128, uint32_step by lia.
  replace (p + 1 + 1) with (p + 2) by lia. reflexivity.
Qed.

Lemma parse_tail2 u post c acc p :
  128 <= c < 256 ->
  parse_int_loop (vlq_tail2 u ++ post) c acc p
  = Some (uint32 (((acc * 128 + vlq_digit u 2) * 128 + vlq_digit u 1) * 128
                  + vlq_digit u 0), p + 3).
Proof.
  intros Hc. pose proof (vlq_digit_range u 2 ltac:(lia)) as H2.
  unfold vlq_tail2. cbn [app]. rewrite parse_int_loop_cont by lia.
  rewrite uint8_idem, uint8_digit_cont by lia.
  rewrite parse_tail3 by lia. rewrite cont_mod_128, uint32_step2 by lia.
  replace (p + 1 + 2) with (p + 3) by lia. reflexivity.
Qed.

Lemma parse_tail1 u post c acc p :
  128 <= c < 256 ->
  parse_int_loop (vlq_tail1 u ++ post) c acc p
  = Some (uint32 ((((acc * 128 + vlq_digit u 3) * 128 + vlq_digit u 2) * 128
                   + vlq_digit u 1) * 128 + vlq_digit u 0), p + 4).
Proof.
  intros Hc. pose proof (vlq_digit_range u 3 ltac:(lia)) as H3.
  unfold vlq_tail1. cbn [app]. rewrite parse_int_loop_cont by lia.
  rewrite uint8_idem, uint8_digit_cont by lia.
  rewrite parse_tail2 by lia. rewrite cont_mod_128, uint32_step3 by lia.
  replace (p + 1 + 3) with (p + 4) by lia. reflexivity.
Qed.

Lemma parse_int_first pre b mem :
  parse_int (pre ++ b :: mem) (Z.of_nat (length pre))
  = parse_int_loop mem (uint8 b) (vlq_first (uint8 b mod 128))
      (Z.of_nat (length pre) + 1).
Proof.
  unfold parse_int. rewrite skipn_length_app. cbv zeta.
  rewrite land_60_sign by apply uint8_range. rewrite land_7f.
  unfold vlq_first.
  destruct (Z.leb_spec 96 (uint8 b mod 128)) as [H|H]; [|reflexivity].
  pose proof (Z.mod_pos_bound (uint8 b) 128 ltac:(lia)).
  rewrite lor_sign_extend by lia. reflexivity.
Qed.

Section VlqBranches.
Variables (pre post : list Z) (u : Z).
Hypothesis Hu : 0 <= u < 4294967296.

Local Abbreviation p0 := (Z.of_nat (length pre)).

Ltac digits :=
  pose proof (uint32_digits u Hu);
  pose proof (vlq_digit_range u 0 ltac:(lia));
  pose proof (vlq_digit_range u 1 ltac:(lia));
  pose proof (vlq_digit_range u 2 ltac:(lia));
  pose proof (vlq_digit_range u 3 ltac:(lia));
  assert (0 <= u / 2 ^ 28 < 16)
    by (split; [apply Z.div_pos; lia | apply Z.div_lt_upper_bound; lia]);
  let t := fresh "t" in
  let Et := fresh "Et" in
  remember (u / 2 ^ 28) as t eqn:Et; clear Et.

Ltac finish :=
  unfold vlq_first;
  match goal with
  | |- context [96 <=? ?d] => destruct (Z.leb_spec 96 d)
  end; f_equal; f_equal; unfold uint32;
  div_mod_lia.

Lemma roundtrip_f4 :
  u < 96 \/ 4294967296 - 32 <= u ->
  parse_int (encode_int_f4 pre u ++ post) p0 = Some (u, p0 + 1).
Proof using Hu.
  intros Hr. digits.
  rewrite encode_int_f4_app, <- app_assoc. unfold vlq_tail4. cbn [app].
  rewrite parse_int_first, uint8_idem, uint8_digit by lia.
  rewrite parse_int_loop_last by lia.
  rewrite (Z.mod_small (vlq_digit u 0)) by lia.
  finish.
Qed.

Lemma roundtrip_f3 :
  u < 12288 \/ 4294967296 - 4096 <= u ->
  parse_int (encode_int_f3 pre u ++ post) p0 = Some (u, p0 + 2).
Proof using Hu.
  intros Hr. digits.
  rewrite encode_int_f3_app, <- app_assoc. unfold vlq_tail3. cbn [app].
  rewrite parse_int_first, uint8_idem, uint8_digit_cont by lia.
  rewrite parse_tail4, cont_mod_128 by lia.
  replace (Z.of_nat (length pre) + 1 + 1)
    with (Z.of_nat (length pre) + 2) by lia.
  finish.
Qed.

Lemma roundtrip_f2 :
  u < 1572864 \/ 4294967296 - 524288 <= u ->
  parse_int (encode_int_f2 pre u ++ post) p0 = Some (u, p0 + 3).
Proof using Hu.
  intros Hr. digits.
  rewrite encode_int_f2_app, <- app_assoc. unfold vlq_tail2. cbn [app].
  rewrite parse_int_first, uint8_idem, uint8_digit_cont by lia.
  rewrite parse_tail3, cont_mod_128 by lia.
  replace (Z.of_nat (length pre) + 1 + 2)
    with (Z.of_nat (length pre) + 3) by lia.
  finish.
Qed.

Lemma roundtrip_f1 :
  u < 201326592 \/ 4294967296 - 67108864 <= u ->
  parse_int (encode_int_f1 pre u ++ post) p0 = Some (u, p0 + 4).
Proof using Hu.
  intros Hr. digits.
  rewrite encode_int_f1_app, <- app_assoc. unfold vlq_tail1. cbn [app].
  rewrite parse_int_first, uint8_idem, uint8_digit_cont by lia.
  rewrite parse_tail2, cont_mod_128 by lia.
  replace (Z.of_nat (length pre) + 1 + 3)
    with (Z.of_nat (length pre) + 4) by lia.
  finish.
Qed.

Lemma roundtrip_f0 :
  parse_int (encode_int_f1 (put pre (Z.lor (Z.shiftr u 28) 0x80)) u ++ post) p0
  = Some (u, p0 + 5).
Proof using Hu.
  rewrite Z.shiftr_div_pow2 by lia. digits.
  rewrite encode_int_f1_app. unfold put. rewrite <- !app_assoc. cbn [app].
  rewrite parse_int_first, uint8_idem, byte_cont by lia.
  rewrite parse_tail1, cont_mod_128 by lia.
  replace (Z.of_nat (length pre) + 1 + 4)
    with (Z.of_nat (length pre) + 5) by lia.
  finish.
Qed.
End VlqBranches.

Lemma encode_int_length pre v :
  exists k, (1 <= k <= 5)%nat /\ length (encode_int pre v) = (length pre + k)%nat.
Proof.
  unfold encode_int. cbv zeta.
  repeat match goal with
         | |- context [if ?c then _ else _] => destruct c
         end;
    rewrite ?encode_int_f4_app, ?encode_int_f3_app, ?encode_int_f2_app,
      ?encode_int_f1_app; unfold put; rewrite ?length_app;
    cbn [length vlq_tail1 vlq_tail2 vlq_tail3 vlq_tail4];
    [exists 1%nat | exists 2%nat | exists 3%nat | exists 4%nat | exists 5%nat];
    lia.
Qed.

(** The round trip for an argument of any size: [encode_int] takes its
    argument as a [uint32_t]. *)
Lemma vlq_roundtrip_uint32 (pre post : list Z) (v : Z) :
  parse_int (encode_int pre v ++ post) (Z.of_nat (length pre))
  = Some (uint32 v, Z.of_nat (length (encode_int pre v))).
Proof.
  unfold encode_int. cbv zeta.
  pose proof (uint32_range v) as Hu. set (u := uint32 v) in *.
  change (Z.shiftl 3 5) with 96. change (Z.shiftl 1 5) with 32.
  change (Z.shiftl 3 12) with 12288. change (Z.shiftl 1 12) with 4096.
  change (Z.shiftl 3 19) with 1572864. change (Z.shiftl 1 19) with 524288.
  change (Z.shiftl 3 26) with 201326592. change (Z.shiftl 1 26) with 67108864.
  assert (Hsv : (u < 2147483648 /\ int32 u = u)
                \/ (2147483648 <= u /\ int32 u = u - 4294967296)).
  { destruct (Z.lt_ge_cases u 2147483648);
      [left; split; [lia | apply int32_small; lia]
      | right; split; [lia | apply int32_large; lia]]. }
  set (sv := int32 u) in *.
  match goal with |- context [if ?c then _ else _] => destruct c eqn:E4 end;
    cbv iota.
  { apply andb_true_iff in E4. rewrite Z.ltb_lt, Z.geb_le in E4.
    rewrite roundtrip_f4 by lia.
    rewrite encode_int_f4_app, length_app. cbn [length vlq_tail4].
    do 2 f_equal. lia. }
  match goal with |- context [if ?c then _ else _] => destruct c eqn:E3 end;
    cbv iota.
  { apply andb_true_iff in E3. rewrite Z.ltb_lt, Z.geb_le in E3.
    rewrite roundtrip_f3 by lia.
    rewrite encode_int_f3_app, length_app. cbn [length vlq_tail3 vlq_tail4].
    do 2 f_equal. lia. }
  match goal with |- context [if ?c then _ else _] => destruct c eqn:E2 end;
    cbv iota.
  { apply andb_true_iff in E2. rewrite Z.ltb_lt, Z.geb_le in E2.
    rewrite roundtrip_f2 by lia.
    rewrite encode_int_f2_app, length_app.
    cbn [length vlq_tail2 vlq_tail3 vlq_tail4].
    do 2 f_equal. lia. }
  match goal with |- context [if ?c then _ else _] => destruct c eqn:E1 end;
    cbv iota.
  { apply andb_true_iff in E1. rewrite Z.ltb_lt, Z.geb_le in E1.
    rewrite roundtrip_f1 by lia.
    rewrite encode_int_f1_app, length_app.
    cbn [length vlq_tail1 vlq_tail2 vlq_tail3 vlq_tail4].
    do 2 f_equal. lia. }
  rewrite roundtrip_f0 by lia.
  rewrite encode_int_f1_app. unfold put. rewrite !length_app.
  cbn [length vlq_tail1 vlq_tail2 vlq_tail3 vlq_tail4].
  do 2 f_equal. lia.
Qed.

(** C2.  VLQ round trip: whatever precedes and follows them in memory,
    the bytes that [encode_int] writes for a 32-bit value [v] are decoded
    by [parse_int] to exactly [v], and the cursor of [parse_int] stops
    immediately after the last byte that [encode_int] wrote. *)
Theorem vlq_roundtrip (pre post : list Z) (v : Z) :
  0 <= v < 4294967296 ->
  parse_int (encode_int pre v ++ post) (Z.of_nat (length pre))
  = Some (v, Z.of_nat (length (encode_int pre v))).
Proof.
  intros Hv. rewrite vlq_roundtrip_uint32. unfold uint32.
  rewrite Z.mod_small by lia. reflexivity.
Qed.

(** C3, as the claim states it, fails: [encode_int] writes one byte for
    [0x00000020], not two. *)
Lemma vlq_boundary_0x20_one_byte :
  length (encode_int [] 0x00000020) <> 2%nat.
Proof. vm_compute. discriminate. Qed.

(** C3, amended.  [encode_int] produces 1 byte for [0x00000000], 1 byte
    for [0x0000001F], 1 byte for [0x00000020], 5 bytes for [0x7FFFFFFF],
    5 bytes for [0x80000000] and 1 byte for [0xFFFFFFFF]; each of these
    values round-trips through [parse_int]. *)
Theorem vlq_boundary_lengths :
  let rt v n :=
    length (encode_int [] v) = n
    /\ parse_int (encode_int [] v) 0 = Some (v, Z.of_nat n) in
  rt 0x00000000 1%nat /\ rt 0x0000001F 1%nat /\ rt 0x00000020 1%nat
  /\ rt 0x7FFFFFFF 5%nat /\ rt 0x80000000 5%nat /\ rt 0xFFFFFFFF 1%nat.
Proof. vm_compute. repeat split. Qed.

(** ** Bytes, characters and flags *)

Lemma uint8_small x : 0 <= x < 256 -> uint8 x = x.
Proof. intros H. unfold uint8. apply Z.mod_small. lia. Qed.

Lemma uint16_small x : 0 <= x < 65536 -> uint16 x = x.
Proof. intros H. unfold uint16. apply Z.mod_small. lia. Qed.

Lemma uint8_char_val b : uint8 (char_val b) = uint8 b.
Proof.
  unfold char_val. pose proof (uint8_range b) as Hb.
  destruct (CHAR_IS_SIGNED && (128 <=? uint8 b)).
  - unfold uint8 in *. div_mod_lia.
  - apply uint8_idem.
Qed.

Lemma char_val_small b : 0 <= b < 128 -> char_val b = b.
Proof.
  intros Hb. unfold char_val. rewrite uint8_small by lia.
  destruct (Z.leb_spec 128 b); [lia|]. rewrite andb_false_r. reflexivity.
Qed.

Lemma char_val_cases b :
  char_val b = uint8 b \/ (128 <= uint8 b /\ char_val b = uint8 b - 256).
Proof.
  unfold char_val. destruct CHAR_IS_SIGNED; cbn [andb]; [|now left].
  destruct (Z.leb_spec 128 (uint8 b)); [right; lia | now left].
Qed.

Lemma char_val_sync b : (char_val b =? MESSAGE_SYNC) = (uint8 b =? MESSAGE_SYNC).
Proof.
  pose proof (uint8_range b). unfold MESSAGE_SYNC.
  destruct (char_val_cases b) as [E|[H1 E]]; rewrite E; [reflexivity|].
  destruct (Z.eqb_spec (uint8 b - 256) 126), (Z.eqb_spec (uint8 b) 126); lia.
Qed.

Lemma uint8_land_255 x : uint8 x = Z.land x 255.
Proof. unfold uint8. change 255 with (Z.ones 8). rewrite Z.land_ones by lia. reflexivity. Qed.

Lemma land_byte_r x c : 0 <= c < 256 -> Z.land x c = Z.land (uint8 x) c.
Proof.
  intros Hc. rewrite uint8_land_255, <- Z.land_assoc. f_equal.
  rewrite Z.land_comm, <- uint8_land_255.
  symmetry. apply uint8_small, Hc.
Qed.

Lemma uint8_lor x c : uint8 (Z.lor x c) = Z.lor (uint8 x) (uint8 c).
Proof. rewrite !uint8_land_255. apply Z.land_lor_distr_l. Qed.

Lemma uint8_land x c : uint8 (Z.land x c) = Z.land (uint8 x) c.
Proof.
  rewrite !uint8_land_255, <- !Z.land_assoc. f_equal. apply Z.land_comm.
Qed.

Lemma has_flag_uint8 x f : 0 <= f < 256 -> has_flag x f = has_flag (uint8 x) f.
Proof. intros Hf. unfold has_flag. rewrite (land_byte_r x f Hf). reflexivity. Qed.

Ltac bool_bytes b Hb :=
  match goal with
  | |- ?l = ?r =>
      let P := eval pattern b in (Bool.eqb l r) in
      match P with
      | ?f _ =>
          apply Bool.eqb_prop;
          apply (byte_cases f); [vm_compute; reflexivity | exact Hb]
      end
  end.

Ltac flag_bytes x :=
  let b := fresh "b" in
  let Hb := fresh "Hb" in
  pose proof (uint8_range x) as Hb;
  generalize dependent (uint8 x); intros b Hb;
  bool_bytes b Hb.

Lemma set_flag_has x f g :
  0 <= f < 256 -> 0 <= g < 256 ->
  has_flag (uint8 (Z.lor x f)) g = has_flag x g || has_flag f g.
Proof.
  intros Hf Hg. rewrite (has_flag_uint8 x g Hg).
  rewrite uint8_lor, (uint8_small f Hf). unfold has_flag.
  rewrite Z.land_lor_distr_l.
  destruct (Z.eqb_spec (Z.land (uint8 x) g) 0) as [E|E];
    destruct (Z.eqb_spec (Z.land f g) 0) as [E'|E']; cbn [negb orb];
    rewrite ?E, ?E'.
  - reflexivity.
  - rewrite Z.lor_0_l. apply negb_true_iff, Z.eqb_neq, E'.
  - rewrite Z.lor_0_r. apply negb_true_iff, Z.eqb_neq, E.
  - apply negb_true_iff, Z.eqb_neq. intros H.
    apply Z.lor_eq_0_iff in H. tauto.
Qed.

Lemma clear_flag_has x f g :
  0 <= f < 256 -> 0 <= g < 256 ->
  has_flag (uint8 (Z.land x (Z.lnot f))) g
  = negb (Z.land (Z.land (uint8 x) g) (Z.lnot f) =? 0).
Proof.
  intros Hf Hg. unfold has_flag. rewrite uint8_land. f_equal. f_equal.
  rewrite <- !Z.land_assoc. f_equal. apply Z.land_comm.
Qed.

Lemma clear_valid_has_valid x :
  has_flag (uint8 (Z.land x (Z.lnot CF_NEED_VALID))) CF_NEED_VALID = false.
Proof.
  rewrite clear_flag_has by (unfold CF_NEED_VALID; cbn; lia).
  flag_bytes x.
Qed.

Lemma clear_sync_has_valid x :
  has_flag (uint8 (Z.land x (Z.lnot CF_NEED_SYNC))) CF_NEED_VALID
  = has_flag x CF_NEED_VALID.
Proof.
  rewrite clear_flag_has by (unfold CF_NEED_VALID, CF_NEED_SYNC; cbn; lia).
  rewrite (has_flag_uint8 x CF_NEED_VALID) by (unfold CF_NEED_VALID; cbn; lia).
  unfold has_flag. flag_bytes x.
Qed.

Lemma set_sync_has_valid x :
  has_flag (uint8 (Z.lor x CF_NEED_SYNC)) CF_NEED_VALID
  = has_flag x CF_NEED_VALID.
Proof.
  rewrite set_flag_has by (unfold CF_NEED_VALID, CF_NEED_SYNC; cbn; lia).
  apply orb_false_r.
Qed.

Lemma set_valid_has_valid x :
  has_flag (uint8 (Z.lor x CF_NEED_VALID)) CF_NEED_VALID = true.
Proof.
  rewrite set_flag_has by (unfold CF_NEED_VALID; cbn; lia).
  apply orb_true_r.
Qed.

(** ** CRC engine *)

Lemma crc16_ccitt_loop_range bytes crc :
  0 <= crc < 65536 -> 0 <= crc16_ccitt_loop bytes crc < 65536.
Proof.
  revert crc. induction bytes as [|b bytes IH]; intros crc Hc; cbn.
  - exact Hc.
  - apply IH, uint16_range.
Qed.

Lemma crc16_ccitt_range buf len : 0 <= crc16_ccitt buf len < 65536.
Proof.
  unfold crc16_ccitt. destruct HAVE_OPTIMIZED_CRC.
  - apply uint16_range.
  - apply crc16_ccitt_loop_range. lia.
Qed.

Lemma crc16_ccitt_prefix bytes rest len :
  0 <= len < 256 -> Z.of_nat (length bytes) = len ->
  crc16_ccitt (bytes ++ rest) len = crc16_ccitt bytes len.
Proof.
  intros Hl E. unfold crc16_ccitt. rewrite uint8_small by lia.
  replace (Z.to_nat len) with (length bytes) by lia.
  rewrite firstn_app, Nat.sub_diag, firstn_all. cbn [firstn].
  rewrite app_nil_r. reflexivity.
Qed.

(** The two CRC bytes that [_sendf] stores are the big-endian halves. *)
Lemma crc_high_byte crc : 0 <= crc < 65536 -> uint8 (Z.shiftr crc 8) = crc / 256.
Proof.
  intros H. rewrite Z.shiftr_div_pow2 by lia. change (2 ^ 8) with 256.
  apply uint8_small. div_mod_lia.
Qed.

(** [msgcrc] is the big-endian unsigned value of the two trailer bytes,
    whatever the signedness of [char]. *)
Lemma trailer_crc_be16 buf msglen :
  trailer_crc buf msglen
  = be16 (peek buf (msglen - MESSAGE_TRAILER_CRC))
         (peek buf (msglen - MESSAGE_TRAILER_CRC + 1)).
Proof.
  unfold trailer_crc, be16.
  set (hi := peek buf (msglen - MESSAGE_TRAILER_CRC)).
  set (lo := peek buf (msglen - MESSAGE_TRAILER_CRC + 1)).
  rewrite uint8_char_val.
  pose proof (uint8_range hi) as Hh. pose proof (uint8_range lo) as Hl.
  change 8 with (Z.of_nat 8) at 1. rewrite lor_shiftl_low by (cbn; lia).
  change (2 ^ Z.of_nat 8) with 256.
  destruct (char_val_cases hi) as [E|[H1 E]]; rewrite E; unfold uint16;
    div_mod_lia.
Qed.

(** ** Transmission *)

Lemma sendf_params_state n types args maxend out s :
  match sendf_params n types args maxend out s with
  | Returns _ s' => s' = s
  | Shutdown reason s' => s' = s /\ reason = "Message encode error"%string
  | Undefined => True
  end.
Proof.
  revert types args out.
  induction n as [|n IH]; intros types args out; cbn [sendf_params].
  - reflexivity.
  - destruct (_ >? maxend); [cbn; auto|].
    destruct types as [|t types]; [exact I|].
    destruct (is_vlq_type t).
    { destruct args as [|[a|m] args]; try exact I. apply IH. }
    destruct (t =? PT_string).
    { destruct args as [|[a|m] args]; try exact I.
      destruct (copy_string _ _); [apply IH | exact I]. }
    destruct ((t =? PT_progmem_buffer) || (t =? PT_buffer)).
    { destruct args as [|[a|m] [|[a'|m'] args]]; try exact I.
      destruct (memcpy _ _); [apply IH | exact I]. }
    cbn. auto.
Qed.

Lemma sendf_payload_state cp args s :
  match sendf_payload cp args s with
  | Returns _ s' => s' = s
  | Shutdown _ s' => s' = s
  | Undefined => True
  end.
Proof.
  unfold sendf_payload. destruct (_ =? 0); [reflexivity|].
  match goal with
  | |- context [sendf_params ?n ?t ?a ?m ?o ?s] =>
      pose proof (sendf_params_state n t a m o s) as H;
      destruct (sendf_params n t a m o s)
  end; tauto.
Qed.

Lemma sendf_next_sequence cp args s :
  match _sendf cp args s with
  | Returns _ s' => next_sequence s' = next_sequence s
  | Shutdown _ s' => next_sequence s' = next_sequence s
  | Undefined => True
  end.
Proof.
  unfold _sendf. destruct (negb _); [reflexivity|].
  pose proof (sendf_payload_state cp args s) as H.
  destruct (sendf_payload cp args s); cbn [bind]; subst; auto.
Qed.

(** The frame of an empty payload. *)
Lemma sendf_frame_empty seq :
  0 <= seq < 256 ->
  sendf_frame seq []
  = [5; seq; crc16_ccitt [5; seq] 2 / 256; crc16_ccitt [5; seq] 2 mod 256;
     MESSAGE_SYNC].
Proof.
  intros Hs. unfold sendf_frame, put. cbn [length app Z.of_nat].
  change (MESSAGE_HEADER_SIZE + 0) with 2.
  change (uint8 (uint8 (2 + MESSAGE_TRAILER_SIZE))) with 5.
  rewrite (uint8_small seq) by lia.
  pose proof (crc16_ccitt_range [5; seq] 2) as Hc.
  rewrite crc_high_byte by lia. reflexivity.
Qed.

(** [sendf] of the empty message: one reservation of five bytes, and if
    it succeeds one push of the five-byte frame. *)
Lemma sendf_empty_eq s :
  _sendf encoder_empty [] s
  = Returns tt
      (if console_get_output MESSAGE_MIN s
       then console_push_output (sendf_frame (next_sequence s) []) MESSAGE_MIN s
       else s).
Proof.
  unfold _sendf, sendf_payload. cbn.
  destruct (console_get_output _ s); reflexivity.
Qed.

(** C10.  For every encoder whose [max_size] is 0, [_sendf] encodes
    nothing, not even the message id: when the transport grants the
    reservation it pushes a frame of exactly five bytes, LEN = 5, SEQ
    equal to the current [next_sequence], the big-endian CRC of these two
    bytes and the sync byte 0x7E.  [_sendf] never changes
    [next_sequence], for any encoder and any arguments. *)
Theorem sendf_empty_payload_frame :
  (forall cp args s,
      command_encoder.max_size cp = 0 ->
      0 <= next_sequence s < 256 ->
      console_get_output MESSAGE_MIN s = true ->
      let crc := crc16_ccitt [5; next_sequence s] 2 in
      let frame := [5; next_sequence s; crc / 256; crc mod 256; 0x7E] in
      sendf_payload cp args s = Returns [] s
      /\ _sendf cp args s = Returns tt (console_push_output frame 5 s)
      /\ console_output (console_push_output frame 5 s)
         = console_output s ++ [frame])
  /\ (forall cp args s,
         match _sendf cp args s with
         | Returns _ s' => next_sequence s' = next_sequence s
         | Shutdown _ s' => next_sequence s' = next_sequence s
         | Undefined => True
         end).
Proof.
  split; [|exact sendf_next_sequence].
  intros cp args s Hmax Hseq Hroom crc frame.
  assert (Ep : sendf_payload cp args s = Returns [] s).
  { unfold sendf_payload. rewrite Hmax. reflexivity. }
  split; [exact Ep|]. split; [|reflexivity].
  unfold _sendf. rewrite Ep, Hmax.
  change (uint8 (uint8 0 + MESSAGE_MIN)) with MESSAGE_MIN.
  rewrite Hroom. cbn [negb bind].
  rewrite sendf_frame_empty by lia. reflexivity.
Qed.

(** ** Reception: the labels of [command_get_message] *)

Lemma nak_spec s :
  exists s',
    command_get_message_nak s = Returns None s'
    /\ next_sequence s' = next_sequence s
    /\ sync_state s' = sync_state s
    /\ console_input s' = console_input s
    /\ console_output s' = nak_output s.
Proof.
  unfold command_get_message_nak. rewrite sendf_empty_eq. cbn [bind].
  unfold nak_output.
  destruct (console_get_output MESSAGE_MIN s); eexists; repeat split.
Qed.

Lemma nak_output_length s :
  Z.of_nat (length (nak_output s)) <= Z.of_nat (length (console_output s)) + 1.
Proof.
  unfold nak_output. destruct (console_get_output _ _).
  - rewrite length_app. cbn [length]. lia.
  - lia.
Qed.

Lemma need_sync_spec buf buf_len s :
  exists s',
    command_get_message_need_sync buf buf_len s = Returns None s'
    /\ next_sequence s' = next_sequence s
    /\ has_flag (sync_state s') CF_NEED_VALID = true
    /\ console_input s'
       = skipn (Z.to_nat (match memchr buf MESSAGE_SYNC buf_len with
                          | Some next_sync => next_sync + 1
                          | None => buf_len
                          end)) (console_input s)
    /\ console_output s'
       = (if has_flag (sync_state s) CF_NEED_VALID then console_output s
          else nak_output s).
Proof.
  unfold command_get_message_need_sync.
  set (s1 := match memchr buf MESSAGE_SYNC buf_len with
             | Some _ => _ | None => _ end).
  assert (H1 : next_sequence s1 = next_sequence s
               /\ has_flag (sync_state s1) CF_NEED_VALID
                  = has_flag (sync_state s) CF_NEED_VALID
               /\ console_output s1 = console_output s
               /\ console_room s1 = console_room s
               /\ console_input s1
                  = skipn (Z.to_nat (match memchr buf MESSAGE_SYNC buf_len with
                                     | Some next_sync => next_sync + 1
                                     | None => buf_len
                                     end)) (console_input s)).
  { subst s1. destruct (memchr buf MESSAGE_SYNC buf_len); cbn;
      rewrite ?clear_sync_has_valid; repeat split. }
  destruct H1 as (En & Ef & Eo & Er & Ei). clearbody s1.
  fold (has_flag (sync_state s1) CF_NEED_VALID). rewrite Ef.
  destruct (has_flag (sync_state s) CF_NEED_VALID) eqn:Ev.
  - exists s1. rewrite Ef. repeat split; assumption.
  - destruct (nak_spec (set_sync_state
                          (uint8 (Z.lor (sync_state s1) CF_NEED_VALID)) s1))
      as (s' & E & E1 & E2 & E3 & E4).
    exists s'. split; [exact E|]. rewrite E1, E2, E3, E4. cbn.
    rewrite set_valid_has_valid. repeat split; try assumption.
    unfold nak_output, console_get_output. cbn. rewrite Er, Eo, En.
    reflexivity.
Qed.

Lemma error_spec buf buf_len s :
  exists s',
    command_get_message_error buf buf_len s = Returns None s'
    /\ next_sequence s' = next_sequence s
    /\ (has_flag (sync_state s) CF_NEED_VALID = true ->
        has_flag (sync_state s') CF_NEED_VALID = true)
    /\ console_output s'
       = (if (uint8 (peek buf 0) =? MESSAGE_SYNC)
             || has_flag (sync_state s) CF_NEED_VALID
          then console_output s else nak_output s)
    /\ (uint8 (peek buf 0) <> MESSAGE_SYNC ->
        has_flag (sync_state s') CF_NEED_VALID = true).
Proof.
  unfold command_get_message_error. rewrite char_val_sync.
  destruct (Z.eqb_spec (uint8 (peek buf 0)) MESSAGE_SYNC) as [E|E].
  - eexists. split; [reflexivity|]. cbn. repeat split; auto; contradiction.
  - destruct (need_sync_spec buf buf_len
                (set_sync_state (uint8 (Z.lor (sync_state s) CF_NEED_SYNC)) s))
      as (s' & E0 & E1 & E2 & E3 & E4).
    exists s'. split; [exact E0|]. rewrite E1, E4. cbn.
    rewrite set_sync_has_valid. repeat split; auto.
Qed.

Lemma advance_sequence_byte m :
  0 <= m < 256 ->
  uint8 (Z.lor (Z.land (m + 1) MESSAGE_SEQ_MASK) MESSAGE_DEST)
  = Z.lor MESSAGE_DEST (Z.land (m + 1) MESSAGE_SEQ_MASK).
Proof.
  intros Hm. apply Z.eqb_eq.
  apply (byte_cases
           (fun m => uint8 (Z.lor (Z.land (m + 1) MESSAGE_SEQ_MASK) MESSAGE_DEST)
                     =? Z.lor MESSAGE_DEST (Z.land (m + 1) MESSAGE_SEQ_MASK)));
    [vm_compute; reflexivity | exact Hm].
Qed.

Lemma tagged_sequence_byte m :
  0 <= m < 256 ->
  Z.land m (Z.lnot MESSAGE_SEQ_MASK) = MESSAGE_DEST ->
  16 <= m < 32
  /\ Z.lor MESSAGE_DEST (Z.land (m + 1) MESSAGE_SEQ_MASK) = 16 + (m - 16 + 1) mod 16.
Proof.
  intros Hm Ht.
  pose proof (byte_cases
    (fun m => negb (Z.land m (Z.lnot MESSAGE_SEQ_MASK) =? MESSAGE_DEST)
              || ((16 <=? m) && (m <? 32)
                  && (Z.lor MESSAGE_DEST (Z.land (m + 1) MESSAGE_SEQ_MASK)
                      =? 16 + (m - 16 + 1) mod 16)))
    ltac:(vm_compute; reflexivity) m Hm) as H.
  cbv beta in H. apply Z.eqb_eq in Ht. rewrite Ht in H. cbn [negb orb] in H.
  apply andb_prop in H. destruct H as [H H3].
  apply andb_prop in H. destruct H as [H1 H2].
  apply Z.leb_le in H1. apply Z.ltb_lt in H2. apply Z.eqb_eq in H3.
  split; [lia | exact H3].
Qed.

Lemma valid_spec buf msglen msgseq s :
  0 <= msgseq < 256 ->
  exists s',
    command_get_message_valid buf msglen msgseq s
    = Returns (if msgseq =? next_sequence s then Some buf else None) s'
    /\ has_flag (sync_state s') CF_NEED_VALID = false
    /\ next_sequence s'
       = (if msgseq =? next_sequence s
          then Z.lor MESSAGE_DEST (Z.land (msgseq + 1) MESSAGE_SEQ_MASK)
          else next_sequence s)
    /\ console_input s'
       = (if msgseq =? next_sequence s then console_input s
          else skipn (Z.to_nat msglen) (console_input s))
    /\ console_output s'
       = (if console_get_output MESSAGE_MIN s
          then console_output s ++ [sendf_frame (next_sequence s') []]
          else console_output s).
Proof.
  intros Hm. unfold command_get_message_valid.
  cbn [next_sequence set_sync_state].
  destruct (msgseq =? next_sequence s) eqn:Eq; cbn [negb].
  - rewrite sendf_empty_eq. cbn [bind]. eexists. split; [reflexivity|].
    unfold console_get_output.
    cbn [console_room set_next_sequence set_sync_state].
    destruct (MESSAGE_MIN <=? console_room s);
      unfold console_push_output, set_next_sequence, set_sync_state;
      cbn [sync_state next_sequence console_input console_output];
      rewrite clear_valid_has_valid, ?advance_sequence_byte by lia;
      repeat split.
  - destruct (nak_spec
                (console_pop_input msglen
                   (set_sync_state
                      (uint8 (Z.land (sync_state s) (Z.lnot CF_NEED_VALID))) s)))
      as (s' & E & E1 & E2 & E3 & E4).
    exists s'. split; [exact E|]. rewrite E1, E2, E3, E4.
    unfold nak_output, console_get_output, console_pop_input, set_sync_state.
    cbn [sync_state next_sequence console_input console_output console_room].
    rewrite clear_valid_has_valid. repeat split.
Qed.

(** ** Reception: [command_get_message] *)

Lemma cgm_at_crc_check s :
  reaches_crc_check s = true ->
  let buf := console_input s in
  let msglen := frame_msglen buf in
  command_get_message s
  = if crc16_ccitt buf (msglen - MESSAGE_TRAILER_SIZE) =? trailer_crc buf msglen
    then command_get_message_valid buf msglen (frame_msgseq buf) s
    else command_get_message_error buf (Z.of_nat (length buf)) s.
Proof.
  unfold reaches_crc_check, command_get_message, console_get_input, has_flag.
  intros H. cbv zeta.
  fold (frame_msglen (console_input s)). fold (frame_msgseq (console_input s)).
  repeat (apply andb_prop in H; destruct H as [H ?]).
  set (buf_len := Z.of_nat (length (console_input s))) in *.
  replace (negb (buf_len =? 0)
           && negb (Z.land (sync_state s) CF_NEED_SYNC =? 0)) with false
    by (destruct (buf_len =? 0), (Z.land (sync_state s) CF_NEED_SYNC =? 0);
        cbn in *; congruence).
  repeat match goal with
         | H : (_ <=? _) = true |- _ => apply Z.leb_le in H
         end.
  destruct (Z.ltb_spec buf_len MESSAGE_MIN); [lia|].
  destruct (Z.ltb_spec (frame_msglen (console_input s)) MESSAGE_MIN); [lia|].
  destruct (Z.gtb_spec (frame_msglen (console_input s)) MESSAGE_MAX); [lia|].
  cbn [orb].
  match goal with H : (_ =? MESSAGE_DEST) = true |- _ => rewrite H end.
  cbn [negb].
  destruct (Z.ltb_spec buf_len (frame_msglen (console_input s))); [lia|].
  match goal with H : (_ =? MESSAGE_SYNC) = true |- _ => rewrite H end.
  cbn [negb].
  destruct (_ =? trailer_crc _ _); reflexivity.
Qed.

Lemma cgm_not_reaching s :
  reaches_crc_check s = false ->
  let buf := console_input s in
  let buf_len := Z.of_nat (length buf) in
  command_get_message s = command_get_message_need_sync buf buf_len s
  \/ command_get_message s = Returns None s
  \/ command_get_message s = command_get_message_error buf buf_len s.
Proof.
  unfold reaches_crc_check, command_get_message, console_get_input, has_flag.
  intros H. cbv zeta.
  fold (frame_msglen (console_input s)) in *.
  fold (frame_msgseq (console_input s)) in *.
  set (buf_len := Z.of_nat (length (console_input s))) in *.
  destruct (buf_len =? 0) eqn:E0;
    destruct (Z.land (sync_state s) CF_NEED_SYNC =? 0) eqn:E1;
    cbn [negb andb orb] in *; auto.
  all: destruct (Z.ltb_spec buf_len MESSAGE_MIN) as [H1|H1]; auto.
  all: destruct (Z.leb_spec MESSAGE_MIN buf_len); [|lia].
  all: destruct (Z.ltb_spec (frame_msglen (console_input s)) MESSAGE_MIN);
    cbn [orb]; auto.
  all: destruct (Z.gtb_spec (frame_msglen (console_input s)) MESSAGE_MAX);
    auto.
  all: destruct (Z.leb_spec MESSAGE_MIN (frame_msglen (console_input s)));
    [|lia].
  all: destruct (Z.leb_spec (frame_msglen (console_input s)) MESSAGE_MAX);
    [|lia].
  all: destruct (_ =? MESSAGE_DEST); cbn [negb andb] in *; auto.
  all: destruct (Z.ltb_spec buf_len (frame_msglen (console_input s))); auto.
  all: destruct (Z.leb_spec (frame_msglen (console_input s)) buf_len); [|lia].
  all: cbn [andb] in H; rewrite H; cbn [negb]; auto.
Qed.

Lemma frame_msgseq_range buf : 0 <= frame_msgseq buf < 256.
Proof. apply uint8_range. Qed.

Lemma cgm_passes s :
  crc_check_passes s = true ->
  let buf := console_input s in
  let accepted := frame_msgseq buf =? next_sequence s in
  exists s',
    command_get_message s = Returns (if accepted then Some buf else None) s'
    /\ has_flag (sync_state s') CF_NEED_VALID = false
    /\ next_sequence s'
       = (if accepted
          then Z.lor MESSAGE_DEST (Z.land (frame_msgseq buf + 1) MESSAGE_SEQ_MASK)
          else next_sequence s)
    /\ console_input s'
       = (if accepted then console_input s
          else skipn (Z.to_nat (frame_msglen buf)) (console_input s))
    /\ console_output s'
       = (if console_get_output MESSAGE_MIN s
          then console_output s ++ [sendf_frame (next_sequence s') []]
          else console_output s).
Proof.
  unfold crc_check_passes. intros H. apply andb_prop in H.
  destruct H as [Hr Hc]. cbv zeta.
  rewrite (cgm_at_crc_check s Hr). cbv zeta. rewrite Hc.
  apply valid_spec, frame_msgseq_range.
Qed.

Lemma nak_output_mono s :
  (length (console_output s) <= length (nak_output s))%nat.
Proof.
  unfold nak_output. destruct (console_get_output _ _);
    rewrite ?length_app; lia.
Qed.

Lemma cgm_fails s :
  crc_check_passes s = false ->
  exists s',
    command_get_message s = Returns None s'
    /\ next_sequence s' = next_sequence s
    /\ (has_flag (sync_state s) CF_NEED_VALID = true ->
        has_flag (sync_state s') CF_NEED_VALID = true)
    /\ nak_budget s' <= nak_budget s
    /\ (length (console_output s) <= length (console_output s'))%nat.
Proof.
  intros H.
  assert (Herr : forall buf buf_len,
             exists s',
               command_get_message_error buf buf_len s = Returns None s'
               /\ next_sequence s' = next_sequence s
               /\ (has_flag (sync_state s) CF_NEED_VALID = true ->
                   has_flag (sync_state s') CF_NEED_VALID = true)
               /\ nak_budget s' <= nak_budget s
               /\ (length (console_output s)
                   <= length (console_output s'))%nat).
  { intros buf buf_len.
    destruct (error_spec buf buf_len s) as (s' & E & En & Ef & Eo & Ev).
    pose proof (nak_output_length s) as Hn.
    pose proof (nak_output_mono s) as Hm.
    exists s'. repeat split; try assumption.
    - unfold nak_budget. rewrite Eo.
      destruct (Z.eqb_spec (uint8 (peek buf 0)) MESSAGE_SYNC) as [Es|Es];
        cbn [orb].
      + destruct (has_flag (sync_state s) CF_NEED_VALID).
        * rewrite Ef by reflexivity. lia.
        * destruct (has_flag (sync_state s') CF_NEED_VALID); lia.
      + rewrite (Ev Es).
        destruct (has_flag (sync_state s) CF_NEED_VALID); lia.
    - rewrite Eo. destruct (_ || _); lia. }
  unfold crc_check_passes in H.
  destruct (reaches_crc_check s) eqn:Hr; cbn [andb] in H.
  - rewrite (cgm_at_crc_check s Hr). cbv zeta. rewrite H. apply Herr.
  - destruct (cgm_not_reaching s Hr) as [E|[E|E]]; rewrite E.
    + destruct (need_sync_spec (console_input s)
                  (Z.of_nat (length (console_input s))) s)
        as (s' & E0 & En & Ef & Ei & Eo).
      pose proof (nak_output_length s) as Hn.
      pose proof (nak_output_mono s) as Hm.
      exists s'. repeat split; try assumption; [auto| |].
      * unfold nak_budget. rewrite Eo, Ef.
        destruct (has_flag (sync_state s) CF_NEED_VALID); lia.
      * rewrite Eo. destruct (has_flag (sync_state s) CF_NEED_VALID); lia.
    + exists s. repeat split; auto; lia.
    + apply Herr.
Qed.

(** C4.  The sequence-number state machine.  Every call of
    [command_get_message] returns.  It returns a frame exactly when the
    front of the input is a frame whose checks all pass and whose SEQ
    byte equals [next_sequence]; then [next_sequence] becomes
    [0x10 | ((SEQ + 1) & 0x0F)], one more modulo 16 under the same
    destination tag.  On every other call [next_sequence] is left as it
    was. *)
Theorem sequence_number_state_machine (s : mcu) :
  let buf := console_input s in
  let accepted :=
    crc_check_passes s && (frame_msgseq buf =? next_sequence s) in
  exists s',
    command_get_message s = Returns (if accepted then Some buf else None) s'
    /\ next_sequence s'
       = (if accepted
          then Z.lor 0x10 (Z.land (next_sequence s + 1) 0x0F)
          else next_sequence s)
    /\ (accepted = true ->
        16 <= next_sequence s < 32
        /\ next_sequence s' = 16 + (next_sequence s - 16 + 1) mod 16).
Proof.
  cbv zeta. destruct (crc_check_passes s) eqn:Hc; cbn [andb].
  - destruct (cgm_passes s Hc) as (s' & E & _ & En & _). cbv zeta in *.
    exists s'. split; [exact E|].
    destruct (Z.eqb_spec (frame_msgseq (console_input s)) (next_sequence s))
      as [Eq|Eq].
    + rewrite En, <- Eq. split; [reflexivity|]. intros _.
      unfold crc_check_passes, reaches_crc_check, console_get_input in Hc.
      repeat (apply andb_prop in Hc; destruct Hc as [Hc ?]).
      match goal with H : (_ =? MESSAGE_DEST) = true |- _ =>
        apply Z.eqb_eq in H; rename H into Ht end.
      apply tagged_sequence_byte; [apply frame_msgseq_range | exact Ht].
    + split; [exact En | discriminate].
  - destruct (cgm_fails s Hc) as (s' & E & En & _).
    exists s'. split; [exact E|]. split; [exact En | discriminate].
Qed.

(** ** NAK suppression *)

Lemma nak_budget_arrive bytes room s :
  nak_budget (arrive bytes room s) = nak_budget s.
Proof. reflexivity. Qed.

Lemma invalid_run_budget arrivals s s' :
  invalid_run arrivals s = Some s' -> nak_budget s' <= nak_budget s.
Proof.
  revert s. induction arrivals as [|[bytes room] arrivals IH]; intros s H;
    cbn [invalid_run] in H.
  - injection H as <-. lia.
  - destruct (crc_check_passes (arrive bytes room s)) eqn:Hc; [discriminate|].
    destruct (cgm_fails _ Hc) as (s1 & E & _ & _ & Hb & _).
    rewrite E in H. apply IH in H. rewrite nak_budget_arrive in Hb. lia.
Qed.

Lemma invalid_run_latch arrivals s s' :
  invalid_run arrivals s = Some s' ->
  has_flag (sync_state s) CF_NEED_VALID = true ->
  has_flag (sync_state s') CF_NEED_VALID = true.
Proof.
  revert s. induction arrivals as [|[bytes room] arrivals IH]; intros s H Hl;
    cbn [invalid_run] in H.
  - injection H as <-. exact Hl.
  - destruct (crc_check_passes (arrive bytes room s)) eqn:Hc; [discriminate|].
    destruct (cgm_fails _ Hc) as (s1 & E & _ & Hf & _).
    rewrite E in H. apply IH in H; [exact H|]. apply Hf. exact Hl.
Qed.

Lemma invalid_run_output_mono arrivals s s' :
  invalid_run arrivals s = Some s' ->
  (length (console_output s) <= length (console_output s'))%nat.
Proof.
  revert s. induction arrivals as [|[bytes room] arrivals IH]; intros s H;
    cbn [invalid_run] in H.
  - injection H as <-. lia.
  - destruct (crc_check_passes (arrive bytes room s)) eqn:Hc; [discriminate|].
    destruct (cgm_fails _ Hc) as (s1 & E & _ & _ & _ & Hm).
    rewrite E in H. apply IH in H. cbn in Hm. lia.
Qed.

(** C5.  NAK suppression.  (1) On entering resync, through label
    [need_sync], the call emits a NAK only if the [CF_NEED_VALID] latch
    was clear, and leaves the latch set.  (2) A call clears the latch
    only if the CRC check of a frame passes in it.  (3) On the fail path
    with the sync byte 0x7E first in the buffer, exactly one byte is
    popped and nothing is emitted.  (4) Over any run of polls in which no
    CRC check passes, whatever arrives in between, at most one message is
    pushed, and none if the latch was set at the start. *)
Theorem nak_suppression :
  (forall buf buf_len s,
      exists s',
        command_get_message_need_sync buf buf_len s = Returns None s'
        /\ has_flag (sync_state s') CF_NEED_VALID = true
        /\ next_sequence s' = next_sequence s
        /\ console_output s'
           = (if has_flag (sync_state s) CF_NEED_VALID then console_output s
              else if console_get_output MESSAGE_MIN s
                   then console_output s ++ [sendf_frame (next_sequence s) []]
                   else console_output s))
  /\ (forall s r s',
         command_get_message s = Returns r s' ->
         has_flag (sync_state s) CF_NEED_VALID = true ->
         has_flag (sync_state s') CF_NEED_VALID = false ->
         crc_check_passes s = true)
  /\ (forall buf buf_len s,
         uint8 (peek buf 0) = MESSAGE_SYNC ->
         command_get_message_error buf buf_len s
         = Returns None (console_pop_input 1 s)
         /\ console_input (console_pop_input 1 s) = skipn 1 (console_input s)
         /\ console_output (console_pop_input 1 s) = console_output s
         /\ sync_state (console_pop_input 1 s) = sync_state s)
  /\ (forall arrivals s s',
         invalid_run arrivals s = Some s' ->
         Z.of_nat (length (console_output s'))
         <= Z.of_nat (length (console_output s)) + 1
         /\ (has_flag (sync_state s) CF_NEED_VALID = true ->
             length (console_output s') = length (console_output s))).
Proof.
  split; [|split; [|split]].
  - intros buf buf_len s.
    destruct (need_sync_spec buf buf_len s) as (s' & E & En & Ef & _ & Eo).
    exists s'. repeat split; assumption.
  - intros s r s' E Hl Hl'.
    destruct (crc_check_passes s) eqn:Hc; [reflexivity|].
    destruct (cgm_fails s Hc) as (s1 & E1 & _ & Hf & _).
    rewrite E in E1. injection E1 as _ <-.
    rewrite (Hf Hl) in Hl'. discriminate.
  - intros buf buf_len s Hs. unfold command_get_message_error.
    rewrite char_val_sync, Hs, Z.eqb_refl. repeat split.
  - intros arrivals s s' H.
    pose proof (invalid_run_budget _ _ _ H) as Hb. unfold nak_budget in Hb.
    split.
    + destruct (has_flag (sync_state s') CF_NEED_VALID),
        (has_flag (sync_state s) CF_NEED_VALID); lia.
    + intros Hl. rewrite Hl, (invalid_run_latch _ _ _ H Hl) in Hb.
      pose proof (invalid_run_output_mono _ _ _ H). lia.
Qed.

(** ** CRC comparison and length bounds *)

Lemma crc_check_spec (s : mcu) :
  reaches_crc_check s = true ->
  let buf := console_input s in
  let msglen := frame_msglen buf in
  let stored := be16 (peek buf (msglen - 3)) (peek buf (msglen - 2)) in
  trailer_crc buf msglen = stored
  /\ crc_check_passes s = (crc16_ccitt buf (msglen - 3) =? stored)
  /\ command_get_message s
     = (if crc16_ccitt buf (msglen - 3) =? stored
        then command_get_message_valid buf msglen (frame_msgseq buf) s
        else command_get_message_error buf (Z.of_nat (length buf)) s).
Proof.
  intros Hr buf msglen stored.
  assert (Et : trailer_crc buf msglen = stored).
  { rewrite trailer_crc_be16. unfold stored, MESSAGE_TRAILER_CRC.
    do 2 f_equal. lia. }
  split; [exact Et|]. split.
  - unfold crc_check_passes. rewrite Hr. cbn [andb]. fold buf. fold msglen.
    rewrite Et. reflexivity.
  - rewrite (cgm_at_crc_check s Hr). cbv zeta. fold buf. fold msglen.
    rewrite Et. reflexivity.
Qed.

(** C7.  For every frame that reaches the CRC comparison, the value that
    the code assembles from the trailer is the big-endian unsigned 16-bit
    value of the bytes at offsets [msglen-3] and [msglen-2], for either
    signedness of [char] and also when the high byte has bit 7 set; the
    check succeeds, and the code continues with the valid frame, exactly
    when that value equals [crc16_ccitt] over the first [msglen-3]
    bytes, and takes the fail path otherwise. *)
Theorem crc_comparison (s : mcu) :
  reaches_crc_check s = true ->
  let buf := console_input s in
  let msglen := frame_msglen buf in
  let stored := be16 (peek buf (msglen - 3)) (peek buf (msglen - 2)) in
  trailer_crc buf msglen = stored
  /\ crc_check_passes s = (crc16_ccitt buf (msglen - 3) =? stored)
  /\ command_get_message s
     = (if crc16_ccitt buf (msglen - 3) =? stored
        then command_get_message_valid buf msglen (frame_msgseq buf) s
        else command_get_message_error buf (Z.of_nat (length buf)) s).
Proof. exact (crc_check_spec s). Qed.

Lemma error_returns_none buf buf_len s :
  exists s', command_get_message_error buf buf_len s = Returns None s'.
Proof.
  destruct (error_spec buf buf_len s) as (s' & E & _). exists s'. exact E.
Qed.

(** C6.  Frame length bounds.  A LEN byte below 5 or above 64 is never
    accepted: [command_get_message] returns no frame, and with at least
    five bytes in the input and no resync pending it does so through its
    fail path.  In particular a frame that claims length 65 is rejected.
    A LEN byte of exactly 64 is accepted when the other checks pass: the
    frame is processed as valid, and returned when its SEQ byte is
    [next_sequence]. *)
Theorem frame_length_bounds (s : mcu) :
  let buf := console_input s in
  let buf_len := Z.of_nat (length buf) in
  let msglen := frame_msglen buf in
  ((msglen < 5 \/ msglen > 64) ->
   (exists s', command_get_message s = Returns None s')
   /\ (has_flag (sync_state s) CF_NEED_SYNC = false ->
       MESSAGE_MIN <= buf_len ->
       command_get_message s = command_get_message_error buf buf_len s))
  /\ (msglen = 65 -> exists s', command_get_message s = Returns None s')
  /\ (msglen = 64 ->
      has_flag (sync_state s) CF_NEED_SYNC = false ->
      Z.land (frame_msgseq buf) (Z.lnot MESSAGE_SEQ_MASK) = MESSAGE_DEST ->
      64 <= buf_len ->
      uint8 (peek buf 63) = MESSAGE_SYNC ->
      crc16_ccitt buf 61 = be16 (peek buf 61) (peek buf 62) ->
      command_get_message s
      = command_get_message_valid buf 64 (frame_msgseq buf) s
      /\ (frame_msgseq buf = next_sequence s ->
          exists s', command_get_message s = Returns (Some buf) s')).
Proof.
  intros buf buf_len msglen.
  assert (Hlow : (msglen < 5 \/ msglen > 64) ->
                 (exists s', command_get_message s = Returns None s')
                 /\ (has_flag (sync_state s) CF_NEED_SYNC = false ->
                     MESSAGE_MIN <= buf_len ->
                     command_get_message s
                     = command_get_message_error buf buf_len s)).
  { intros Hm. split.
    - assert (Hc : crc_check_passes s = false).
      { unfold crc_check_passes, reaches_crc_check, console_get_input.
        fold buf. fold msglen. unfold MESSAGE_MIN, MESSAGE_MAX.
        destruct (Z.leb_spec 5 msglen); destruct (Z.leb_spec msglen 64);
          try lia; cbn [andb]; rewrite ?andb_false_r; reflexivity. }
      destruct (cgm_fails s Hc) as (s' & E & _). exists s'. exact E.
    - intros Hs Hl.
      unfold command_get_message, console_get_input. cbv zeta.
      fold buf. fold buf_len. fold (frame_msglen buf). fold msglen.
      fold (has_flag (sync_state s) CF_NEED_SYNC). rewrite Hs.
      rewrite andb_false_r.
      destruct (Z.ltb_spec buf_len MESSAGE_MIN); [lia|].
      unfold MESSAGE_MIN, MESSAGE_MAX.
      destruct (Z.ltb_spec msglen 5); [reflexivity|].
      destruct (Z.gtb_spec msglen 64); [reflexivity | lia]. }
  split; [exact Hlow|]. split.
  - intros Hm. apply Hlow. lia.
  - intros Hm Hs Ht Hb Hy Hc.
    assert (Hr : reaches_crc_check s = true).
    { unfold reaches_crc_check, console_get_input. fold buf. fold buf_len.
      fold msglen. rewrite Hs, Hm, Ht, char_val_sync.
      change (64 - MESSAGE_TRAILER_SYNC) with 63. rewrite Hy.
      rewrite orb_true_r, Z.eqb_refl. cbn [negb andb].
      unfold MESSAGE_MIN, MESSAGE_MAX in *.
      destruct (Z.leb_spec 5 buf_len); [|lia].
      destruct (Z.leb_spec 64 buf_len); [|lia]. reflexivity. }
    destruct (crc_check_spec s Hr) as (_ & _ & E). cbv zeta in E.
    fold buf in E. fold msglen in E. rewrite Hm in E.
    change (64 - 3) with 61 in E. change (64 - 2) with 62 in E.
    rewrite Hc, Z.eqb_refl in E. split; [exact E|].
    intros Hq. rewrite E.
    destruct (valid_spec buf 64 (frame_msgseq buf) s
                (frame_msgseq_range buf)) as (s' & E' & _).
    exists s'. rewrite E'.
    destruct (Z.eqb_spec (frame_msgseq buf) (next_sequence s));
      [reflexivity | contradiction].
Qed.

(** ** Frame round trip *)

Lemma peek_0 a l : peek (a :: l) 0 = a.
Proof. reflexivity. Qed.

Lemma peek_1 a b l : peek (a :: b :: l) 1 = b.
Proof. reflexivity. Qed.

Lemma peek_app_r (l1 l2 : list Z) (i : Z) :
  Z.of_nat (length l1) <= i ->
  peek (l1 ++ l2) i = peek l2 (i - Z.of_nat (length l1)).
Proof.
  intros H. unfold peek. rewrite app_nth2 by lia. f_equal. lia.
Qed.

Lemma sendf_frame_shape seq out :
  (length out <= 250)%nat -> 0 <= seq < 256 ->
  let n := Z.of_nat (length out) in
  let crc := crc16_ccitt ([n + 5; seq] ++ out) (n + 2) in
  sendf_frame seq out
  = ([n + 5; seq] ++ out) ++ [crc / 256; crc mod 256; MESSAGE_SYNC].
Proof.
  intros Hn Hs n crc. unfold sendf_frame, put.
  unfold MESSAGE_HEADER_SIZE, MESSAGE_TRAILER_SIZE. fold n.
  rewrite uint8_idem, (uint8_small seq) by lia.
  rewrite (uint8_small (2 + n + 3)) by lia.
  replace (2 + n + 3) with (n + 5) by lia.
  replace (2 + n) with (n + 2) by lia. fold crc.
  pose proof (crc16_ccitt_range ([n + 5; seq] ++ out) (n + 2)) as Hc.
  fold crc in Hc. rewrite crc_high_byte by lia.
  rewrite <- !app_assoc. reflexivity.
Qed.

Lemma tag_of_sequence seq :
  0 <= seq <= 15 ->
  0 <= Z.lor 0x10 seq < 256
  /\ Z.land (Z.lor 0x10 seq) (Z.lnot MESSAGE_SEQ_MASK) = MESSAGE_DEST
  /\ Z.land (Z.lor 0x10 seq) MESSAGE_SEQ_MASK = seq.
Proof.
  intros Hs.
  pose proof (byte_cases
    (fun seq => (15 <? seq)
                || ((0 <=? Z.lor 0x10 seq) && (Z.lor 0x10 seq <? 256)
                    && (Z.land (Z.lor 0x10 seq) (Z.lnot MESSAGE_SEQ_MASK)
                        =? MESSAGE_DEST)
                    && (Z.land (Z.lor 0x10 seq) MESSAGE_SEQ_MASK =? seq)))
    ltac:(vm_compute; reflexivity) seq ltac:(lia)) as H.
  cbv beta in H. destruct (Z.ltb_spec 15 seq); [lia|]. cbn [orb] in H.
  repeat (apply andb_prop in H; destruct H as [H ?]).
  repeat match goal with
         | H : (_ <=? _) = true |- _ => apply Z.leb_le in H
         | H : (_ <? _) = true |- _ => apply Z.ltb_lt in H
         | H : (_ =? _) = true |- _ => apply Z.eqb_eq in H
         end.
  repeat split; assumption.
Qed.

Lemma be16_split crc :
  0 <= crc < 65536 -> be16 (crc / 256) (crc mod 256) = crc.
Proof.
  intros H. unfold be16. rewrite !uint8_small by div_mod_lia. div_mod_lia.
Qed.

(** C1.  Frame round trip.  For every payload of 0 to 59 bytes and every
    sequence number [seq] in [0,15], the frame that the transmission path
    builds ([sendf_frame]: LEN, SEQ = [0x10 | seq], the payload, the
    big-endian CRC of all that precedes, 0x7E), presented at the front of
    the input of a receiver that expects [0x10 | seq] and has no resync
    pending, is accepted by [command_get_message]; the payload and the
    sequence number that the dispatcher takes from the returned frame are
    exactly the payload and [seq]. *)
Theorem frame_roundtrip (payload rest : list Z) (seq : Z) (s : mcu) :
  (length payload <= 59)%nat ->
  0 <= seq <= 15 ->
  next_sequence s = Z.lor 0x10 seq ->
  has_flag (sync_state s) CF_NEED_SYNC = false ->
  console_input s = sendf_frame (Z.lor 0x10 seq) payload ++ rest ->
  exists s',
    command_get_message s = Returns (Some (console_input s)) s'
    /\ frame_payload (console_input s) = payload
    /\ frame_seq (console_input s) = seq.
Proof.
  intros Hn Hseq Hnext Hsync Hin.
  destruct (tag_of_sequence seq Hseq) as (Hr & Htag & Hlow).
  set (q := Z.lor 16 seq) in *.
  pose proof (sendf_frame_shape q payload ltac:(lia) Hr) as Hf.
  cbv zeta in Hf. set (n := Z.of_nat (length payload)) in *.
  set (crc := crc16_ccitt ([n + 5; q] ++ payload) (n + 2)) in *.
  pose proof (crc16_ccitt_range ([n + 5; q] ++ payload) (n + 2)) as Hc.
  fold crc in Hc.
  assert (Hbuf : console_input s
                 = ([n + 5; q] ++ payload)
                     ++ ([crc / 256; crc mod 256; MESSAGE_SYNC] ++ rest)).
  { rewrite Hin, Hf, <- app_assoc. reflexivity. }
  assert (Hlen1 : Z.of_nat (length ([n + 5; q] ++ payload)) = n + 2).
  { rewrite length_app. cbn [length]. lia. }
  assert (Emsglen : frame_msglen (console_input s) = n + 5).
  { unfold frame_msglen. rewrite Hbuf, uint8_char_val. cbn [app].
    unfold MESSAGE_POS_LEN. rewrite peek_0. apply uint8_small. lia. }
  assert (Emsgseq : frame_msgseq (console_input s) = q).
  { unfold frame_msgseq. rewrite Hbuf, uint8_char_val. cbn [app].
    unfold MESSAGE_POS_SEQ. rewrite peek_1. apply uint8_small. lia. }
  assert (Htrail : forall k, 0 <= k ->
             peek (console_input s) (n + 2 + k)
             = peek ([crc / 256; crc mod 256; MESSAGE_SYNC] ++ rest) k).
  { intros k Hk. rewrite Hbuf, peek_app_r by lia. f_equal. lia. }
  assert (Hlen : Z.of_nat (length (console_input s))
                 = n + 5 + Z.of_nat (length rest)).
  { rewrite Hbuf, !length_app. cbn [length]. lia. }
  assert (Hpass : crc_check_passes s = true).
  { assert (Hreach : reaches_crc_check s = true).
    { unfold reaches_crc_check, console_get_input.
      rewrite Hsync, Emsglen, Emsgseq, Htag, Hlen, char_val_sync.
      replace (n + 5 - MESSAGE_TRAILER_SYNC) with (n + 2 + 2)
        by (unfold MESSAGE_TRAILER_SYNC; lia).
      rewrite Htrail by lia. cbn [app]. change (peek _ 2) with MESSAGE_SYNC.
      rewrite orb_true_r, Z.eqb_refl. unfold MESSAGE_MIN, MESSAGE_MAX.
      change (uint8 MESSAGE_SYNC =? MESSAGE_SYNC) with true.
      destruct (Z.leb_spec 5 (n + 5 + Z.of_nat (length rest))); [|lia].
      destruct (Z.leb_spec 5 (n + 5)); [|lia].
      destruct (Z.leb_spec (n + 5) 64); [|lia].
      destruct (Z.leb_spec (n + 5) (n + 5 + Z.of_nat (length rest))); [|lia].
      reflexivity. }
    destruct (crc_check_spec s Hreach) as (_ & E & _). cbv zeta in E.
    rewrite E, Emsglen.
    replace (n + 5 - 3) with (n + 2 + 0) by lia.
    replace (n + 5 - 2) with (n + 2 + 1) by lia.
    rewrite !Htrail by lia. cbn [app].
    change (peek _ 0) with (crc / 256). change (peek _ 1) with (crc mod 256).
    rewrite be16_split by lia. rewrite Z.add_0_r.
    rewrite Hbuf, crc16_ccitt_prefix by lia. fold crc. apply Z.eqb_refl. }
  destruct (cgm_passes s Hpass) as (s' & E & _). cbv zeta in E.
  rewrite Emsgseq, Hnext, Z.eqb_refl in E.
  exists s'. split; [exact E|]. split.
  - unfold frame_payload. rewrite Emsglen.
    unfold MESSAGE_TRAILER_SIZE, MESSAGE_HEADER_SIZE.
    replace (Z.to_nat (n + 5 - 3 - 2)) with (length payload) by lia.
    rewrite Hbuf. change (Z.to_nat 2) with 2%nat. cbn [app skipn].
    rewrite firstn_app, Nat.sub_diag, firstn_all. cbn [firstn].
    apply app_nil_r.
  - unfold frame_seq. rewrite Emsgseq. exact Hlow.
Qed.

(** ** Shutdown guard *)



Lemma cgm_accepts_inv s buf s1 :
  command_get_message s = Returns (Some buf) s1 ->
  buf = console_input s /\ console_input s1 = console_input s
  /\ crc_check_passes s = true.
Proof.
  intros H. destruct (crc_check_passes s) eqn:Hc.
  - destruct (cgm_passes s Hc) as (s' & E & _ & _ & Ei & _). cbv zeta in *.
    rewrite H in E.
    destruct (frame_msgseq (console_input s) =? next_sequence s);
      [|discriminate].
    injection E as -> ->. auto.
  - destruct (cgm_fails s Hc) as (s' & E & _). rewrite H in E. discriminate.
Qed.


(** ** The dispatcher loop terminates *)

Lemma parse_int_loop_advances mem c v p v' p' :
  parse_int_loop mem c v p = Some (v', p') -> p <= p'.
Proof.
  revert c v p. induction mem as [|b mem IH]; intros c v p H;
    cbn [parse_int_loop] in H; destruct (Z.land c 128 =? 0);
    try discriminate; try (injection H as _ <-; lia).
  apply IH in H. lia.
Qed.

Lemma parse_int_advances buf p v p' :
  parse_int buf p = Some (v, p') -> p < p'.
Proof.
  unfold parse_int. destruct (skipn _ buf); [discriminate|].
  intros H. apply parse_int_loop_advances in H. lia.
Qed.

Lemma parsef_params_advances n types buf p maxend args s p' args' s' :
  parsef_params n types buf p maxend args s = Returns (Some (p', args')) s' ->
  p <= p'.
Proof.
  revert types p args. induction n as [|n IH]; intros types p args H;
    cbn [parsef_params] in H.
  - injection H as <- _ _. lia.
  - destruct (p >? maxend); [discriminate|].
    destruct types as [|t types]; [discriminate|].
    destruct (is_vlq_type t).
    { destruct (parse_int buf p) as [[v q]|] eqn:E; [|discriminate].
      apply parse_int_advances in E. apply IH in H. lia. }
    destruct (t =? PT_buffer); [|discriminate].
    destruct (nth_error buf (Z.to_nat p)); [|discriminate].
    destruct (_ >? maxend); [discriminate|].
    apply IH in H. pose proof (uint8_range (char_val z)). lia.
Qed.

Lemma parsef_advances buf p maxend cp s p' args' s' :
  parsef buf p maxend cp s = Returns (Some (p', args')) s' -> p <= p'.
Proof.
  unfold parsef. destruct (_ && _).
  - destruct (_sendf _ _ s); cbn [bind]; discriminate.
  - apply parsef_params_advances.
Qed.

Lemma command_task_loop_done fuel buf p msgend s :
  msgend <= p -> command_task_loop fuel buf p msgend s = Returns tt s.
Proof.
  intros H. destruct fuel; cbn [command_task_loop];
    destruct (Z.ltb_spec p msgend); try lia; reflexivity.
Qed.

(** The loop of [command_task] never runs out of [fuel]: any two amounts
    that cover the bytes left give the same outcome. *)
Lemma command_task_loop_fuel fuel1 fuel2 buf p msgend s :
  msgend - p <= Z.of_nat fuel1 -> msgend - p <= Z.of_nat fuel2 ->
  command_task_loop fuel1 buf p msgend s
  = command_task_loop fuel2 buf p msgend s.
Proof.
  revert fuel2 p s. induction fuel1 as [|fuel1 IH]; intros fuel2 p s H1 H2.
  - rewrite !command_task_loop_done by lia. reflexivity.
  - destruct fuel2 as [|fuel2].
    + rewrite !command_task_loop_done by lia. reflexivity.
    + cbn [command_task_loop]. destruct (p <? msgend); [|reflexivity].
      cbn [negb].
      destruct (command_get_handler _ s) as [cp s1| |]; cbn [bind];
        try reflexivity.
      destruct (parsef buf (p + 1) msgend cp s1) as [[[q args]|] s2| |] eqn:E;
        cbn [bind]; try reflexivity.
      apply parsef_advances in E.
      destruct (command_parser.func cp args _) as [[] s3| |]; cbn [bind];
        try reflexivity.
      apply IH; lia.
Qed.

(** ** Replies to a valid frame *)

Lemma tag_of_tagged q :
  16 <= q < 32 -> Z.land q (Z.lnot MESSAGE_SEQ_MASK) = MESSAGE_DEST.
Proof.
  intros Hq. apply Z.eqb_eq.
  pose proof (byte_cases
    (fun q => (q <? 16) || (32 <=? q)
              || (Z.land q (Z.lnot MESSAGE_SEQ_MASK) =? MESSAGE_DEST))
    ltac:(vm_compute; reflexivity) q ltac:(lia)) as H.
  cbv beta in H.
  destruct (Z.ltb_spec q 16); [lia|]. destruct (Z.leb_spec 32 q); [lia|].
  exact H.
Qed.

(** The frame that [sendf_frame] builds passes every check of the
    receiver. *)
Lemma sendf_frame_checks (payload rest : list Z) (q : Z) (s : mcu) :
  (length payload <= 59)%nat ->
  16 <= q < 32 ->
  has_flag (sync_state s) CF_NEED_SYNC = false ->
  console_input s = sendf_frame q payload ++ rest ->
  crc_check_passes s = true
  /\ frame_msglen (console_input s) = Z.of_nat (length payload) + 5
  /\ frame_msgseq (console_input s) = q
  /\ Z.of_nat (length (sendf_frame q payload)) = Z.of_nat (length payload) + 5.
Proof.
  intros Hn Hq Hsync Hin.
  pose proof (tag_of_tagged q Hq) as Htag.
  pose proof (sendf_frame_shape q payload ltac:(lia) ltac:(lia)) as Hf.
  cbv zeta in Hf. set (n := Z.of_nat (length payload)) in *.
  set (crc := crc16_ccitt ([n + 5; q] ++ payload) (n + 2)) in *.
  pose proof (crc16_ccitt_range ([n + 5; q] ++ payload) (n + 2)) as Hc.
  fold crc in Hc.
  assert (Hbuf : console_input s
                 = ([n + 5; q] ++ payload)
                     ++ ([crc / 256; crc mod 256; MESSAGE_SYNC] ++ rest)).
  { rewrite Hin, Hf, <- app_assoc. reflexivity. }
  assert (Hlen1 : Z.of_nat (length ([n + 5; q] ++ payload)) = n + 2).
  { rewrite length_app. cbn [length]. lia. }
  assert (Emsglen : frame_msglen (console_input s) = n + 5).
  { unfold frame_msglen. rewrite Hbuf, uint8_char_val. cbn [app].
    unfold MESSAGE_POS_LEN. rewrite peek_0. apply uint8_small. lia. }
  assert (Emsgseq : frame_msgseq (console_input s) = q).
  { unfold frame_msgseq. rewrite Hbuf, uint8_char_val. cbn [app].
    unfold MESSAGE_POS_SEQ. rewrite peek_1. apply uint8_small. lia. }
  assert (Htrail : forall k, 0 <= k ->
             peek (console_input s) (n + 2 + k)
             = peek ([crc / 256; crc mod 256; MESSAGE_SYNC] ++ rest) k).
  { intros k Hk. rewrite Hbuf, peek_app_r by lia. f_equal. lia. }
  assert (Hlen : Z.of_nat (length (console_input s))
                 = n + 5 + Z.of_nat (length rest)).
  { rewrite Hbuf, !length_app. cbn [length]. lia. }
  assert (Hreach : reaches_crc_check s = true).
  { unfold reaches_crc_check, console_get_input.
    rewrite Hsync, Emsglen, Emsgseq, Htag, Hlen, char_val_sync.
    replace (n + 5 - MESSAGE_TRAILER_SYNC) with (n + 2 + 2)
      by (unfold MESSAGE_TRAILER_SYNC; lia).
    rewrite Htrail by lia. cbn [app]. change (peek _ 2) with MESSAGE_SYNC.
    rewrite orb_true_r, Z.eqb_refl. unfold MESSAGE_MIN, MESSAGE_MAX.
    change (uint8 MESSAGE_SYNC =? MESSAGE_SYNC) with true.
    destruct (Z.leb_spec 5 (n + 5 + Z.of_nat (length rest))); [|lia].
    destruct (Z.leb_spec 5 (n + 5)); [|lia].
    destruct (Z.leb_spec (n + 5) 64); [|lia].
    destruct (Z.leb_spec (n + 5) (n + 5 + Z.of_nat (length rest))); [|lia].
    reflexivity. }
  split; [|split; [exact Emsglen | split; [exact Emsgseq|]]].
  - destruct (crc_check_spec s Hreach) as (_ & E & _). cbv zeta in E.
    rewrite E, Emsglen.
    replace (n + 5 - 3) with (n + 2 + 0) by lia.
    replace (n + 5 - 2) with (n + 2 + 1) by lia.
    rewrite !Htrail by lia. cbn [app].
    change (peek _ 0) with (crc / 256). change (peek _ 1) with (crc mod 256).
    rewrite be16_split by lia. rewrite Z.add_0_r.
    rewrite Hbuf, crc16_ccitt_prefix by lia. fold crc. apply Z.eqb_refl.
  - rewrite Hf, !length_app. cbn [length]. lia.
Qed.

(** X1.  The reply to a frame whose checks pass.  The NAK latch is
    cleared.  If the SEQ byte is [next_sequence] the frame is returned
    and stays in the input, [next_sequence] advances, and the empty
    message that is sent, the ACK, carries the advanced value.  Otherwise
    the whole frame is popped, [next_sequence] stays, and the empty
    message, the NAK, carries the value that is still expected.  The
    reply is dropped when the transport has no room for five bytes; the
    sequence number advances all the same. *)
Theorem reply_to_valid_frame (s : mcu) :
  crc_check_passes s = true ->
  let buf := console_input s in
  let reply seq :=
    if console_get_output MESSAGE_MIN s
    then console_output s ++ [sendf_frame seq []]
    else console_output s in
  exists r s',
    command_get_message s = Returns r s'
    /\ has_flag (sync_state s') CF_NEED_VALID = false
    /\ (frame_msgseq buf = next_sequence s ->
        r = Some buf
        /\ console_input s' = buf
        /\ next_sequence s' = Z.lor 0x10 (Z.land (next_sequence s + 1) 0x0F)
        /\ console_output s'
           = reply (Z.lor 0x10 (Z.land (next_sequence s + 1) 0x0F)))
    /\ (frame_msgseq buf <> next_sequence s ->
        r = None
        /\ console_input s' = skipn (Z.to_nat (frame_msglen buf)) buf
        /\ next_sequence s' = next_sequence s
        /\ console_output s' = reply (next_sequence s)).
Proof.
  intros Hc buf reply.
  destruct (cgm_passes s Hc) as (s' & E & Ef & En & Ei & Eo).
  cbv zeta in *. fold buf in E, En, Ei.
  eexists. exists s'. split; [exact E|]. split; [exact Ef|].
  destruct (Z.eqb_spec (frame_msgseq buf) (next_sequence s)) as [Eq|Eq].
  - split; [|contradiction]. intros _. rewrite <- Eq.
    repeat split; try assumption.
    unfold reply. rewrite Eo, En. reflexivity.
  - split; [contradiction|]. intros _.
    repeat split; try assumption.
    unfold reply. rewrite Eo, En. reflexivity.
Qed.

(** ** A frame that arrives in pieces *)

Lemma frame_accepted (payload rest : list Z) (q : Z) (s : mcu) :
  (length payload <= 59)%nat ->
  16 <= q < 32 ->
  has_flag (sync_state s) CF_NEED_SYNC = false ->
  console_input s = sendf_frame q payload ++ rest ->
  next_sequence s = q ->
  exists s',
    command_get_message s = Returns (Some (console_input s)) s'
    /\ console_input s' = console_input s
    /\ next_sequence s' = Z.lor 0x10 (Z.land (q + 1) 0x0F)
    /\ has_flag (sync_state s') CF_NEED_VALID = false.
Proof.
  intros Hn Hq Hsync Hin Hnext.
  destruct (sendf_frame_checks payload rest q s Hn Hq Hsync Hin)
    as (Hc & _ & Eseq & _).
  destruct (cgm_passes s Hc) as (s' & E & Ef & En & Ei & _).
  cbv zeta in *. rewrite Eseq, Hnext, Z.eqb_refl in *.
  exists s'. repeat split; assumption.
Qed.

(** X2.  A frame that arrives in pieces.  While only a proper prefix of
    a frame is in the input, and no resync is pending, a poll returns no
    frame and changes nothing: no byte is popped, nothing is sent, no
    flag is touched.  Once the rest has arrived the frame is returned,
    provided its SEQ byte is [next_sequence]. *)
Theorem fragmented_frame (payload : list Z) (q room : Z) (k : nat) (s : mcu) :
  (length payload <= 59)%nat ->
  16 <= q < 32 ->
  has_flag (sync_state s) CF_NEED_SYNC = false ->
  (k < length (sendf_frame q payload))%nat ->
  console_input s = firstn k (sendf_frame q payload) ->
  command_get_message s = Returns None s
  /\ (next_sequence s = q ->
      exists s',
        command_get_message (arrive (skipn k (sendf_frame q payload)) room s)
        = Returns (Some (sendf_frame q payload)) s').
Proof.
  intros Hn Hq Hsync Hk Hin. split.
  - pose proof (sendf_frame_shape q payload ltac:(lia) ltac:(lia)) as Hf.
    cbv zeta in Hf. set (n := Z.of_nat (length payload)) in *.
    assert (Hlen : Z.of_nat (length (console_input s)) = Z.of_nat k).
    { rewrite Hin, length_firstn. lia. }
    assert (Hflen : Z.of_nat (length (sendf_frame q payload)) = n + 5).
    { rewrite Hf, !length_app. cbn [length]. lia. }
    unfold command_get_message, console_get_input. cbv zeta.
    fold (has_flag (sync_state s) CF_NEED_SYNC). rewrite Hsync, Hlen.
    rewrite andb_false_r. unfold MESSAGE_MIN, MESSAGE_MAX.
    destruct (Z.ltb_spec (Z.of_nat k) 5) as [H5|H5]; [reflexivity|].
    assert (Hbuf : exists tl, console_input s = (n + 5) :: q :: tl).
    { rewrite Hin, Hf. destruct k as [|[|k]]; try lia.
      cbn [app firstn]. eexists. reflexivity. }
    destruct Hbuf as (tl & Hbuf). rewrite Hbuf.
    unfold MESSAGE_POS_LEN, MESSAGE_POS_SEQ. rewrite peek_0, peek_1.
    rewrite !uint8_char_val, !uint8_small by lia.
    rewrite (tag_of_tagged q Hq), Z.eqb_refl. cbn [negb].
    destruct (Z.ltb_spec (n + 5) 5); [lia|].
    destruct (Z.gtb_spec (n + 5) 64); [lia|]. cbn [orb].
    destruct (Z.ltb_spec (Z.of_nat k) (n + 5)); [reflexivity | lia].
  - intros Hnext.
    assert (Hin' : console_input (arrive (skipn k (sendf_frame q payload)) room s)
                   = sendf_frame q payload ++ []).
    { cbn [arrive console_input]. rewrite Hin, firstn_skipn, app_nil_r.
      reflexivity. }
    destruct (frame_accepted payload [] q
                (arrive (skipn k (sendf_frame q payload)) room s)
                Hn Hq Hsync Hin' Hnext) as (s' & E & _).
    rewrite Hin', app_nil_r in E. exists s'. exact E.
Qed.

(** ** The invariant of the static variables *)



Lemma need_sync_sync_state buf buf_len s :
  exists s',
    command_get_message_need_sync buf buf_len s = Returns None s'
    /\ next_sequence s' = next_sequence s
    /\ sync_state s'
       = sync_state_after_need_sync
           (match memchr buf MESSAGE_SYNC buf_len with
            | Some _ => true
            | None => false
            end) (sync_state s).
Proof.
  unfold command_get_message_need_sync, sync_state_after_need_sync.
  destruct (memchr buf MESSAGE_SYNC buf_len) as [i|];
    cbn [console_pop_input set_sync_state sync_state];
    fold (has_flag (uint8 (Z.land (sync_state s) (Z.lnot CF_NEED_SYNC)))
            CF_NEED_VALID);
    fold (has_flag (sync_state s) CF_NEED_VALID).
  - destruct (has_flag _ CF_NEED_VALID); cbn [negb].
    + eexists. repeat split.
    + match goal with
      | |- context [command_get_message_nak ?t] =>
          destruct (nak_spec t) as (s' & E & En & Es & _)
      end.
      exists s'. split; [exact E|]. rewrite En, Es. split; reflexivity.
  - destruct (has_flag _ CF_NEED_VALID); cbn [negb].
    + eexists. repeat split.
    + match goal with
      | |- context [command_get_message_nak ?t] =>
          destruct (nak_spec t) as (s' & E & En & Es & _)
      end.
      exists s'. split; [exact E|]. rewrite En, Es. split; reflexivity.
Qed.






(** ** Recovery after garbage *)

Lemma memchr_from_found g t c n i :
  Forall (fun b => uint8 b <> uint8 c) g ->
  (length g < n)%nat ->
  memchr_from (g ++ c :: t) c n i = Some (i + Z.of_nat (length g)).
Proof.
  revert n i. induction g as [|b g IH]; intros n i Hg Hn.
  - destruct n; [cbn in Hn; lia|]. cbn. rewrite Z.eqb_refl. f_equal. lia.
  - destruct n; [cbn in Hn; lia|]. cbn [app memchr_from].
    inversion Hg as [|? ? Hb Hg']; subst.
    destruct (Z.eqb_spec (uint8 b) (uint8 c)); [contradiction|].
    rewrite IH by (cbn in Hn; auto; lia). f_equal. cbn [length]. lia.
Qed.

Lemma clear_sync_has_sync x :
  has_flag (uint8 (Z.land x (Z.lnot CF_NEED_SYNC))) CF_NEED_SYNC = false.
Proof.
  rewrite clear_flag_has by (unfold CF_NEED_SYNC; cbn; lia).
  flag_bytes x.
Qed.

Lemma after_need_sync_found_flags x :
  has_flag (sync_state_after_need_sync true x) CF_NEED_SYNC = false
  /\ has_flag (sync_state_after_need_sync true x) CF_NEED_VALID = true.
Proof.
  unfold sync_state_after_need_sync.
  destruct (has_flag (uint8 (Z.land x (Z.lnot CF_NEED_SYNC))) CF_NEED_VALID)
    eqn:E.
  - split; [apply clear_sync_has_sync | exact E].
  - split.
    + rewrite set_flag_has by (unfold CF_NEED_SYNC, CF_NEED_VALID; cbn; lia).
      rewrite clear_sync_has_sync. reflexivity.
    + apply set_valid_has_valid.
Qed.

Lemma sendf_frame_length q payload :
  (length payload <= 250)%nat -> 0 <= q < 256 ->
  Z.of_nat (length (sendf_frame q payload)) = Z.of_nat (length payload) + 5.
Proof.
  intros Hn Hq. rewrite (sendf_frame_shape q payload Hn Hq), !length_app.
  cbn [length]. lia.
Qed.

(** X4.  Recovery after garbage.  Let the input hold garbage that starts
    with an impossible LEN byte and contains no sync byte, then a sync
    byte, then a frame.  With no resync pending, one poll pops the
    garbage through the sync byte and nothing more, sends one NAK unless
    the latch was set, and leaves no resync pending; the next poll
    returns the frame if its SEQ byte is [next_sequence]. *)
Theorem resync_recovery (g0 : Z) (g payload rest : list Z) (q : Z) (s : mcu) :
  uint8 g0 < 5 \/ 64 < uint8 g0 ->
  Forall (fun b => uint8 b <> uint8 MESSAGE_SYNC) (g0 :: g) ->
  (length payload <= 59)%nat ->
  16 <= q < 32 ->
  has_flag (sync_state s) CF_NEED_SYNC = false ->
  console_input s
  = (g0 :: g) ++ MESSAGE_SYNC :: sendf_frame q payload ++ rest ->
  exists s1,
    command_get_message s = Returns None s1
    /\ console_input s1 = sendf_frame q payload ++ rest
    /\ next_sequence s1 = next_sequence s
    /\ has_flag (sync_state s1) CF_NEED_SYNC = false
    /\ has_flag (sync_state s1) CF_NEED_VALID = true
    /\ console_output s1
       = (if has_flag (sync_state s) CF_NEED_VALID then console_output s
          else nak_output s)
    /\ (next_sequence s = q ->
        exists s2,
          command_get_message s1
          = Returns (Some (sendf_frame q payload ++ rest)) s2).
Proof.
  intros Hlen0 Hg Hn Hq Hsync Hin.
  set (buf := console_input s) in *.
  set (buf_len := Z.of_nat (length buf)).
  pose proof (sendf_frame_length q payload ltac:(lia) ltac:(lia)) as Hflen.
  assert (Hbl : buf_len = Z.of_nat (length (g0 :: g)) + 1
                          + (Z.of_nat (length payload) + 5)
                          + Z.of_nat (length rest)).
  { unfold buf_len. rewrite Hin, length_app. cbn [length].
    rewrite length_app. lia. }
  assert (Hmem : memchr buf MESSAGE_SYNC buf_len
                 = Some (Z.of_nat (length (g0 :: g)))).
  { unfold memchr. rewrite Hin, memchr_from_found; [reflexivity | exact Hg |].
    cbn [length] in *. lia. }
  assert (E : command_get_message s
              = command_get_message_need_sync buf buf_len
                  (set_sync_state
                     (uint8 (Z.lor (sync_state s) CF_NEED_SYNC)) s)).
  { unfold command_get_message, console_get_input. cbv zeta.
    fold buf. fold buf_len. fold (has_flag (sync_state s) CF_NEED_SYNC).
    rewrite Hsync, andb_false_r. unfold MESSAGE_MIN, MESSAGE_MAX.
    destruct (Z.ltb_spec buf_len 5); [cbn [length] in Hbl; lia|].
    assert (Elen : uint8 (char_val (peek buf MESSAGE_POS_LEN)) = uint8 g0).
    { rewrite uint8_char_val, Hin. reflexivity. }
    rewrite Elen.
    assert (Hbad : (uint8 g0 <? 5) || (uint8 g0 >? 64) = true).
    { destruct (Z.ltb_spec (uint8 g0) 5); [reflexivity|].
      destruct (Z.gtb_spec (uint8 g0) 64); [reflexivity | lia]. }
    rewrite Hbad. unfold command_get_message_error. rewrite char_val_sync.
    assert (Ep : peek buf 0 = g0) by (rewrite Hin; reflexivity).
    rewrite Ep. pose proof (Forall_inv Hg) as Hg0. cbv beta in Hg0.
    destruct (Z.eqb_spec (uint8 g0) MESSAGE_SYNC) as [Es|Es];
      [|reflexivity].
    exfalso. apply Hg0. rewrite Es. reflexivity. }
  rewrite E.
  match goal with
  | |- context [command_get_message_need_sync buf buf_len ?t] =>
      destruct (need_sync_spec buf buf_len t)
        as (s1 & E1 & En & Ev & Ei & Eo);
      destruct (need_sync_sync_state buf buf_len t) as (s1' & E1' & _ & Es)
  end.
  rewrite E1 in E1'. injection E1' as <-.
  rewrite Hmem in Ei, Es. cbn [sync_state set_sync_state] in Es, Eo.
  destruct (after_need_sync_found_flags
              (uint8 (Z.lor (sync_state s) CF_NEED_SYNC))) as [Hf1 Hf2].
  rewrite <- Es in Hf1, Hf2.
  assert (Hin1 : console_input s1 = sendf_frame q payload ++ rest).
  { rewrite Ei. cbn [console_input set_sync_state]. fold buf. rewrite Hin.
    replace (Z.to_nat (Z.of_nat (length (g0 :: g)) + 1))
      with (length ((g0 :: g) ++ [MESSAGE_SYNC]))
      by (rewrite length_app; cbn [length]; lia).
    change ((g0 :: g) ++ MESSAGE_SYNC :: sendf_frame q payload ++ rest)
      with ((g0 :: g) ++ [MESSAGE_SYNC] ++ sendf_frame q payload ++ rest).
    rewrite app_assoc, skipn_app, skipn_all, Nat.sub_diag. reflexivity. }
  exists s1. split; [exact E1|]. split; [exact Hin1|].
  split; [exact En|]. split; [exact Hf1|]. split; [exact Hf2|]. split.
  - rewrite Eo, set_sync_has_valid. unfold nak_output, console_get_output.
    reflexivity.
  - intros Hnext.
    destruct (frame_accepted payload rest q s1 Hn Hq Hf1 Hin1)
      as (s2 & E2 & _).
    + rewrite En. exact Hnext.
    + exists s2. rewrite Hin1 in E2. exact E2.
Qed.

(** ** Unknown command *)

(** X5.  A command id without a handler.  When the frame that
    [command_get_message] returned starts with a command id that is
    outside [command_index] or whose entry is null, [command_task] ends
    in the shutdown "Invalid command".  This is after the frame has been
    acknowledged: [next_sequence] has advanced, and because the shutdown
    does not return, the frame is still in the input. *)
Theorem unknown_command_shutdown (s s1 : mcu) (buf : list Z) :
  command_get_message s = Returns (Some buf) s1 ->
  MESSAGE_HEADER_SIZE < frame_msglen buf - MESSAGE_TRAILER_SIZE ->
  command_index_size <= frame_cmdid buf MESSAGE_HEADER_SIZE
  \/ command_index (frame_cmdid buf MESSAGE_HEADER_SIZE) = None ->
  command_task s = Shutdown "Invalid command" s1
  /\ console_input s1 = buf
  /\ next_sequence s1 = Z.lor 0x10 (Z.land (next_sequence s + 1) 0x0F).
Proof.
  intros Hcgm Hcmd Hbad.
  destruct (cgm_accepts_inv s buf s1 Hcgm) as (Eb & Ei & Hc).
  split; [|split].
  - unfold command_task. rewrite Hcgm. cbn [bind].
    fold (frame_msglen buf).
    destruct (Z.to_nat (frame_msglen buf - MESSAGE_TRAILER_SIZE
                        - MESSAGE_HEADER_SIZE)) as [|fuel] eqn:Ef; [lia|].
    cbn [command_task_loop].
    destruct (Z.ltb_spec MESSAGE_HEADER_SIZE
                (frame_msglen buf - MESSAGE_TRAILER_SIZE)); [|lia].
    cbn [negb]. fold (frame_cmdid buf MESSAGE_HEADER_SIZE).
    unfold command_get_handler.
    destruct (Z.geb_spec (frame_cmdid buf MESSAGE_HEADER_SIZE)
                command_index_size); [reflexivity|].
    destruct Hbad as [Hbad|Hbad]; [lia|]. rewrite Hbad. reflexivity.
  - rewrite Ei, Eb. reflexivity.
  - destruct (cgm_passes s Hc) as (s' & E & _ & En & _). cbv zeta in *.
    rewrite Hcgm in E.
    destruct (Z.eqb_spec (frame_msgseq (console_input s)) (next_sequence s))
      as [Eq|Eq]; [|discriminate].
    injection E as _ <-. rewrite En, Eq. reflexivity.
Qed.

(** ** Shape of the VLQ encoding *)

Lemma encode_int_bytes (pre : list Z) (v : Z) :
  exists front last,
    encode_int pre v = pre ++ front ++ [last]
    /\ (length front <= 4)%nat
    /\ Forall (fun b => 128 <= b < 256) front
    /\ 0 <= last < 128.
Proof.
  unfold encode_int. cbv zeta.
  pose proof (uint32_range v) as Hu. set (u := uint32 v) in *.
  pose proof (vlq_digit_range u 0 ltac:(lia)) as H0.
  pose proof (vlq_digit_range u 1 ltac:(lia)) as H1.
  pose proof (vlq_digit_range u 2 ltac:(lia)) as H2.
  pose proof (vlq_digit_range u 3 ltac:(lia)) as H3.
  assert (Ht : 0 <= Z.shiftr u 28 < 128).
  { rewrite Z.shiftr_div_pow2 by lia.
    split; [apply Z.div_pos; lia | apply Z.div_lt_upper_bound; lia]. }
  repeat match goal with
         | |- context [if ?c then _ else _] => destruct c
         end;
    rewrite ?encode_int_f4_app, ?encode_int_f3_app, ?encode_int_f2_app,
      ?encode_int_f1_app; unfold put; rewrite <- ?app_assoc;
    unfold vlq_tail1, vlq_tail2, vlq_tail3, vlq_tail4;
    rewrite ?uint8_digit_cont, ?uint8_digit, ?byte_cont by lia.
  - exists [], (vlq_digit u 0). repeat split; auto; cbn; lia.
  - exists [vlq_digit u 1 + 128], (vlq_digit u 0).
    repeat split; try (cbn; lia). repeat constructor; lia.
  - exists [vlq_digit u 2 + 128; vlq_digit u 1 + 128], (vlq_digit u 0).
    repeat split; try (cbn; lia). repeat constructor; lia.
  - exists [vlq_digit u 3 + 128; vlq_digit u 2 + 128; vlq_digit u 1 + 128],
      (vlq_digit u 0).
    repeat split; try (cbn; lia). repeat constructor; lia.
  - exists [Z.shiftr u 28 + 128; vlq_digit u 3 + 128; vlq_digit u 2 + 128;
            vlq_digit u 1 + 128], (vlq_digit u 0).
    repeat split; try (cbn; lia). repeat constructor; lia.
Qed.

(** X6.  The bytes that [encode_int] writes: between one and five, of
    which every byte but the last has the continuation bit 0x80 set, and
    the last has it clear.  Nothing that was in the output before is
    changed. *)
Theorem encode_int_shape (pre : list Z) (v : Z) :
  exists front last,
    encode_int pre v = pre ++ front ++ [last]
    /\ (length front <= 4)%nat
    /\ Forall (fun b => 128 <= b < 256) front
    /\ 0 <= last < 128.
Proof. exact (encode_int_bytes pre v). Qed.

(** ** [parse_int] stops at the first byte without continuation bit *)

Lemma parse_int_loop_stops mem c v p k :
  (k < length mem)%nat ->
  uint8 (nth k mem 0) < 128 ->
  0 <= v < 4294967296 ->
  exists v' p',
    parse_int_loop mem c v p = Some (v', p')
    /\ p <= p' <= p + Z.of_nat k + 1
    /\ 0 <= v' < 4294967296.
Proof.
  revert c v p k. induction mem as [|b mem IH]; intros c v p k Hk Hb Hv.
  - cbn in Hk. lia.
  - cbn [parse_int_loop]. destruct (Z.land c 128 =? 0).
    + exists v, p. split; [reflexivity|]. lia.
    + destruct k as [|k].
      * cbn [nth] in Hb. pose proof (uint8_range b).
        rewrite parse_int_loop_last by lia.
        eexists. eexists. split; [reflexivity|].
        split; [lia | apply uint32_range].
      * cbn [nth length] in *.
        destruct (IH (uint8 b)
                    (uint32 (Z.lor (Z.shiftl v 7) (Z.land (uint8 b) 127)))
                    (p + 1) k ltac:(lia) Hb (uint32_range _))
          as (v' & p' & E & Hp & Hv').
        exists v', p'. split; [exact E|]. split; [lia | exact Hv'].
Qed.

Lemma parse_int_stops (buf : list Z) (p q : Z) :
  0 <= p <= q ->
  q < Z.of_nat (length buf) ->
  uint8 (peek buf q) < 128 ->
  exists v p',
    parse_int buf p = Some (v, p')
    /\ p < p' <= q + 1
    /\ 0 <= v < 4294967296.
Proof.
  intros Hp Hq Hb. unfold parse_int.
  destruct (skipn (Z.to_nat p) buf) as [|b mem] eqn:Es.
  - apply (f_equal (@length Z)) in Es. rewrite length_skipn in Es.
    cbn in Es. lia.
  - assert (Hnth : forall i, nth i (b :: mem) 0 = nth (Z.to_nat p + i) buf 0).
    { intros i. rewrite <- Es. apply nth_skipn. }
    assert (Hlen : length (b :: mem) = (length buf - Z.to_nat p)%nat).
    { rewrite <- Es. apply length_skipn. }
    cbv zeta.
    assert (Hv0 : 0 <= (if Z.land (uint8 b) 96 =? 96
                        then uint32 (Z.lor (Z.land (uint8 b) 127) (-32))
                        else Z.land (uint8 b) 127) < 4294967296).
    { destruct (_ =? 96); [apply uint32_range|].
      rewrite land_7f. pose proof (Z.mod_pos_bound (uint8 b) 128). lia. }
    destruct (Z.eq_dec p q) as [Epq|Epq].
    + subst q. assert (Eb : peek buf p = b).
      { unfold peek. specialize (Hnth 0%nat). rewrite Nat.add_0_r in Hnth.
        rewrite <- Hnth. reflexivity. }
      rewrite Eb in Hb. pose proof (uint8_range b).
      rewrite parse_int_loop_last by lia.
      eexists. eexists. split; [reflexivity|]. split; [lia | exact Hv0].
    + destruct (parse_int_loop_stops mem (uint8 b)
                  (if Z.land (uint8 b) 96 =? 96
                   then uint32 (Z.lor (Z.land (uint8 b) 127) (-32))
                   else Z.land (uint8 b) 127)
                  (p + 1) (Z.to_nat (q - p - 1)))
        as (v' & p' & E & Hp' & Hv'); auto.
      * cbn [length] in Hlen. lia.
      * specialize (Hnth (S (Z.to_nat (q - p - 1)))). cbn [nth] in Hnth.
        rewrite Hnth. unfold peek in Hb.
        replace (Z.to_nat p + S (Z.to_nat (q - p - 1)))%nat
          with (Z.to_nat q) by lia.
        exact Hb.
      * exists v', p'. split; [exact E|]. split; [lia | exact Hv'].
Qed.

(** X7.  [parse_int] is self-delimiting: if some byte at or after the
    cursor has its continuation bit clear, [parse_int] returns a 32-bit
    value and a cursor that has moved forward and not past that byte.
    In a frame the sync byte 0x7E is such a byte. *)
Theorem parse_int_self_delimiting (buf : list Z) (p q : Z) :
  0 <= p <= q ->
  q < Z.of_nat (length buf) ->
  uint8 (peek buf q) < 128 ->
  exists v p',
    parse_int buf p = Some (v, p')
    /\ p < p' <= q + 1
    /\ 0 <= v < 4294967296.
Proof. exact (parse_int_stops buf p q). Qed.

(** ** [parsef] stays inside the frame *)

Lemma parsef_params_in_frame n types buf p maxend args s :
  (n <= length types)%nat ->
  0 <= p <= maxend + 3 ->
  maxend + 2 < Z.of_nat (length buf) ->
  uint8 (peek buf (maxend + 2)) < 128 ->
  (exists p' args',
      parsef_params n types buf p maxend args s
      = Returns (Some (p', args')) s
      /\ p <= p' <= maxend + 3)
  \/ parsef_params n types buf p maxend args s
     = Shutdown "Command parser error" s.
Proof.
  revert types p args. induction n as [|n IH]; intros types p args Hn Hp Hl Hb;
    cbn [parsef_params].
  - left. eexists. eexists. split; [reflexivity | lia].
  - destruct (Z.gtb_spec p maxend) as [Hgt|Hle]; [right; reflexivity|].
    destruct types as [|t types]; [cbn in Hn; lia|]. cbn [length] in Hn.
    destruct (is_vlq_type t).
    { destruct (parse_int_stops buf p (maxend + 2))
        as (v & p' & E & Hp' & _); try lia.
      rewrite E.
      destruct (IH types p' (args ++ [v])) as [(p2 & a2 & E2 & H2)|E2];
        try lia; try assumption.
      - left. exists p2, a2. split; [exact E2 | lia].
      - right. exact E2. }
    destruct (t =? PT_buffer); [|right; reflexivity].
    destruct (nth_error buf (Z.to_nat p)) as [b|] eqn:Eb.
    2:{ apply nth_error_None in Eb. lia. }
    pose proof (uint8_range (char_val b)) as Hlen.
    destruct (Z.gtb_spec (p + 1 + uint8 (char_val b)) maxend);
      [right; reflexivity|].
    destruct (IH types (p + 1 + uint8 (char_val b))
                (args ++ [uint8 (char_val b); p + 1]))
      as [(p2 & a2 & E2 & H2)|E2]; try lia; try assumption.
    + left. exists p2, a2. split; [exact E2 | lia].
    + right. exact E2.
Qed.

(** X8.  [parsef] stays inside the frame.  For a frame that
    [command_get_message] returned, a cursor inside its payload and a
    parser whose type table holds its [num_params] entries, [parsef]
    (when the shutdown guard does not apply) either returns a cursor
    that is still inside the frame, or ends in the shutdown "Command
    parser error".  It reads no byte outside the frame: a VLQ that runs
    past the payload ends at the sync byte at the latest. *)
Theorem parsef_stays_in_frame (s0 s1 s : mcu) (buf : list Z) (p : Z)
    (cp : command_parser.t) :
  command_get_message s0 = Returns (Some buf) s1 ->
  let msgend := frame_msglen buf - MESSAGE_TRAILER_SIZE in
  0 <= p <= msgend ->
  uint8 (command_parser.num_params cp)
  <= Z.of_nat (length (command_parser.param_types cp)) ->
  is_shutdown s && (Z.land (command_parser.flags cp) HF_IN_SHUTDOWN =? 0)
  = false ->
  (exists p' args,
      parsef buf p msgend cp s = Returns (Some (p', args)) s
      /\ p <= p' <= frame_msglen buf
      /\ frame_msglen buf <= Z.of_nat (length buf))
  \/ parsef buf p msgend cp s = Shutdown "Command parser error" s.
Proof.
  intros Hcgm msgend Hp Hn Hguard.
  destruct (cgm_accepts_inv s0 buf s1 Hcgm) as (Eb & _ & Hc).
  unfold crc_check_passes in Hc. apply andb_prop in Hc. destruct Hc as [Hr _].
  unfold reaches_crc_check, console_get_input in Hr. rewrite <- Eb in Hr.
  repeat (apply andb_prop in Hr; destruct Hr as [Hr ?]).
  match goal with H : (frame_msglen buf <=? _) = true |- _ =>
    apply Z.leb_le in H; rename H into Hlen end.
  match goal with H : (_ =? MESSAGE_SYNC) = true |- _ =>
    rewrite char_val_sync in H; apply Z.eqb_eq in H; rename H into Hsync end.
  unfold parsef. rewrite Hguard.
  destruct (parsef_params_in_frame
              (Z.to_nat (uint8 (command_parser.num_params cp)))
              (command_parser.param_types cp) buf p msgend [] s)
    as [(p' & args & E & Hp')|E].
  - lia.
  - lia.
  - unfold msgend, MESSAGE_TRAILER_SIZE. lia.
  - replace (msgend + 2) with (frame_msglen buf - MESSAGE_TRAILER_SYNC)
      by (unfold msgend, MESSAGE_TRAILER_SIZE, MESSAGE_TRAILER_SYNC; lia).
    rewrite Hsync. unfold MESSAGE_SYNC. lia.
  - left. exists p', args. split; [exact E|]. split; [|exact Hlen].
    unfold msgend, MESSAGE_TRAILER_SIZE in Hp'. lia.
  - right. exact E.
Qed.

(** ** The command codec round trip *)

Lemma encode_int_app pre out v :
  encode_int (pre ++ out) v = pre ++ encode_int out v.
Proof.
  unfold encode_int. cbv zeta.
  repeat match goal with
         | |- context [if ?c then _ else _] => destruct c
         end;
    rewrite ?encode_int_f4_app, ?encode_int_f3_app, ?encode_int_f2_app,
      ?encode_int_f1_app; unfold put; rewrite <- ?app_assoc; reflexivity.
Qed.

Lemma encode_int_extends out v : exists ext, encode_int out v = out ++ ext.
Proof.
  destruct (encode_int_bytes out v) as (front & last & E & _).
  exists (front ++ [last]). exact E.
Qed.

Lemma encode_args_extends args out :
  exists ext, encode_args args out = out ++ ext.
Proof.
  revert out. induction args as [|v args IH]; intros out; cbn.
  - exists []. symmetry. apply app_nil_r.
  - destruct (encode_int_extends out v) as (e1 & E1).
    destruct (IH (encode_int out v)) as (e2 & E2).
    exists (e1 ++ e2). unfold encode_args in E2.
    rewrite E2, E1, app_assoc. reflexivity.
Qed.

Lemma encode_args_app pre out args :
  encode_args args (pre ++ out) = pre ++ encode_args args out.
Proof.
  revert out. induction args as [|v args IH]; intros out; cbn;
    [reflexivity|].
  rewrite encode_int_app. apply IH.
Qed.

Lemma encode_commands_app pre out cmds :
  encode_commands cmds (pre ++ out) = pre ++ encode_commands cmds out.
Proof.
  revert out. induction cmds as [|[cmdid args] cmds IH]; intros out;
    cbn [encode_commands]; [reflexivity|].
  unfold put. rewrite <- app_assoc, encode_args_app. apply IH.
Qed.

Lemma encode_commands_extends cmds out :
  exists ext, encode_commands cmds out = out ++ ext.
Proof.
  revert out. induction cmds as [|[cmdid args] cmds IH]; intros out;
    cbn [encode_commands].
  - exists []. symmetry. apply app_nil_r.
  - destruct (encode_args_extends args (put out cmdid)) as (e1 & E1).
    destruct (IH (encode_args args (put out cmdid))) as (e2 & E2).
    rewrite E2, E1. unfold put. rewrite <- !app_assoc.
    eexists. reflexivity.
Qed.

(** The parameter loop of [parsef] reads back what [encode_int] wrote
    for each argument in turn. *)
Lemma parsef_params_decodes types args out post maxend args0 s :
  length types = length args ->
  Forall (fun t => is_vlq_type t = true) types ->
  forall rest,
  Z.of_nat (length (encode_args args out)) <= maxend ->
  parsef_params (length args) (types ++ rest) (encode_args args out ++ post)
    (Z.of_nat (length out)) maxend args0 s
  = Returns (Some (Z.of_nat (length (encode_args args out)),
                   args0 ++ map uint32 args)) s.
Proof.
  revert args out args0.
  induction types as [|t types IH]; intros args out args0 Hlen Hty rest Hmax;
    destruct args as [|v args]; try discriminate Hlen.
  - cbn. rewrite app_nil_r. reflexivity.
  - cbn [length parsef_params app encode_args fold_left map].
    fold (encode_args args (encode_int out v)).
    destruct (encode_int_extends out v) as (e1 & E1).
    destruct (encode_args_extends args (encode_int out v)) as (e2 & E2).
    cbn [encode_args fold_left] in Hmax.
    fold (encode_args args (encode_int out v)) in Hmax.
    assert (Hle : Z.of_nat (length out) <= maxend).
    { rewrite E2, E1, !length_app in Hmax. lia. }
    destruct (Z.gtb_spec (Z.of_nat (length out)) maxend); [lia|].
    inversion Hty as [|? ? Ht Hty']; subst. rewrite Ht.
    rewrite E2 at 1. rewrite <- app_assoc.
    rewrite vlq_roundtrip_uint32.
    rewrite E2 at 1. rewrite <- app_assoc.
    change (encode_int out v ++ e2 ++ post)
      with (encode_int out v ++ (e2 ++ post)).
    rewrite app_assoc, <- E2.
    rewrite (IH args (encode_int out v) (args0 ++ [uint32 v]))
      by (cbn in Hlen; auto; lia).
    rewrite <- app_assoc. reflexivity.
Qed.

Lemma uint32_idem x : uint32 (uint32 x) = uint32 x.
Proof. unfold uint32. apply Z.mod_mod. lia. Qed.

Lemma sendf_int_uint32 t a : uint32 (sendf_int t a) = sendf_int t a.
Proof.
  unfold sendf_int. destruct (t >=? PT_uint16); [|apply uint32_idem].
  change 0xffff with (Z.ones 16). rewrite Z.land_ones by lia.
  pose proof (Z.mod_pos_bound a (2 ^ 16) ltac:(lia)).
  unfold uint32. apply Z.mod_small. lia.
Qed.

(** The parameter loop of [_sendf], when every parameter is of integer
    type and it returns, has written the VLQ of each value in turn. *)
Lemma sendf_params_vlq types ints rest more maxend out out' s s' :
  length types = length ints ->
  Forall (fun t => is_vlq_type t = true) types ->
  sendf_params (length types) (types ++ rest) (map VA_int ints ++ more)
    maxend out s = Returns out' s' ->
  out' = encode_args
           (map (fun ta => sendf_int (fst ta) (snd ta)) (combine types ints))
           out
  /\ s' = s.
Proof.
  revert ints out.
  induction types as [|t types IH]; intros ints out Hlen Hty H;
    destruct ints as [|a ints]; try discriminate Hlen.
  - cbn in H. injection H as <- <-. split; reflexivity.
  - cbn [length sendf_params app map] in H.
    destruct (_ >? maxend); [discriminate|].
    inversion Hty as [|? ? Ht Hty']; subst. rewrite Ht in H.
    apply IH in H; [|cbn in Hlen; lia | exact Hty'].
    cbn [combine map encode_args fold_left fst snd]. exact H.
Qed.

(** X9.  The command codec round trip.  When every parameter is of an
    integer type and the parameter loop of [_sendf] returns, the
    parameter loop of [parsef], run over the bytes written (with anything
    before and after them, and [maxend] not before their end), returns
    the cursor at their end and exactly the values that were encoded:
    the argument masked to 16 bits for [uint16], [int16] and [byte], the
    32-bit argument for [uint32] and [int32]. *)
Theorem codec_roundtrip (types : list Z) (ints : list Z) (rest : list Z)
    (more : list va_item) (maxend : Z) (out out' post args0 : list Z)
    (s s' : mcu) (maxend_p : Z) :
  length types = length ints ->
  Forall (fun t => is_vlq_type t = true) types ->
  sendf_params (length types) (types ++ rest) (map VA_int ints ++ more)
    maxend out s = Returns out' s ->
  Z.of_nat (length out') <= maxend_p ->
  parsef_params (length types) (types ++ rest) (out' ++ post)
    (Z.of_nat (length out)) maxend_p args0 s'
  = Returns
      (Some (Z.of_nat (length out'),
             args0 ++ map (fun ta => sendf_int (fst ta) (snd ta))
                        (combine types ints))) s'.
Proof.
  intros Hlen Hty Hs Hmax.
  destruct (sendf_params_vlq _ _ _ _ _ _ _ _ _ Hlen Hty Hs) as [-> _].
  set (vals := map (fun ta => sendf_int (fst ta) (snd ta))
                 (combine types ints)) in *.
  assert (Hl : length types = length vals).
  { unfold vals. rewrite length_map, length_combine. lia. }
  rewrite Hl at 1.
  rewrite (parsef_params_decodes types vals out post maxend_p args0 s' Hl Hty
             rest Hmax).
  do 3 f_equal. unfold vals. rewrite map_map. f_equal. apply map_ext.
  intros [t a]. apply sendf_int_uint32.
Qed.

(** ** Dispatch in wire order *)

Lemma bind_unit_eta (m : outcome unit) :
  (_ <- m ;; fun s => Returns tt s) = m.
Proof. destruct m as [[] s| |]; reflexivity. Qed.

Lemma peek_app_here pre b tl : peek (pre ++ b :: tl) (Z.of_nat (length pre)) = b.
Proof. unfold peek. rewrite Nat2Z.id, nth_middle. reflexivity. Qed.

Lemma dispatch_loop cmds :
  forall pre post s fuel,
    Forall (fun c => forall cp,
                command_index (uint8 (fst c)) = Some cp ->
                command_fits cp (snd c)) cmds ->
    Z.of_nat (length (encode_commands cmds pre)) - Z.of_nat (length pre)
    <= Z.of_nat fuel ->
    command_task_loop fuel (encode_commands cmds pre ++ post)
      (Z.of_nat (length pre)) (Z.of_nat (length (encode_commands cmds pre))) s
    = dispatch_commands cmds s.
Proof.
  induction cmds as [|[cmdid args] cmds IH]; intros pre post s fuel Hfit Hfuel.
  - cbn [encode_commands dispatch_commands].
    apply command_task_loop_done. lia.
  - cbn [encode_commands dispatch_commands] in *.
    set (pre1 := put pre cmdid) in *.
    set (pre2 := encode_args args pre1) in *.
    set (enc := encode_commands cmds pre2) in *.
    destruct (encode_args_extends args pre1) as (e1 & E1). fold pre2 in E1.
    destruct (encode_commands_extends cmds pre2) as (e2 & E2). fold enc in E2.
    assert (Hl1 : Z.of_nat (length pre1) = Z.of_nat (length pre) + 1).
    { unfold pre1, put. rewrite length_app. cbn [length]. lia. }
    assert (Hl2 : Z.of_nat (length pre1) <= Z.of_nat (length pre2)).
    { rewrite E1, length_app. lia. }
    assert (Hl3 : Z.of_nat (length pre2) <= Z.of_nat (length enc)).
    { rewrite E2, length_app. lia. }
    destruct fuel as [|fuel]; [lia|]. cbn [command_task_loop].
    destruct (Z.ltb_spec (Z.of_nat (length pre)) (Z.of_nat (length enc)));
      [|lia].
    cbn [negb].
    assert (Ecmd : uint8 (char_val (peek (enc ++ post) (Z.of_nat (length pre))))
                   = uint8 cmdid).
    { rewrite uint8_char_val, E2, E1. unfold pre1, put.
      rewrite <- !app_assoc. cbn [app]. rewrite peek_app_here.
      apply uint8_idem. }
    rewrite Ecmd.
    inversion Hfit as [|? ? Hc Hfit']; subst. cbn [fst snd] in Hc.
    unfold command_get_handler.
    destruct (uint8 cmdid >=? command_index_size); [reflexivity|].
    destruct (command_index (uint8 cmdid)) as [cp|] eqn:Ecp; [|reflexivity].
    cbn [bind]. unfold parsef.
    destruct (is_shutdown s
              && (Z.land (command_parser.flags cp) HF_IN_SHUTDOWN =? 0)).
    { destruct (_sendf encoder_is_shutdown [VA_int (shutdown_reason s)] s)
        as [[] s1| |]; reflexivity. }
    destruct (Hc cp eq_refl) as (Hn & types & rest & Et & Hlt & Hty).
    rewrite Hn, Et.
    assert (Ebuf : enc ++ post = encode_args args pre1 ++ (e2 ++ post)).
    { fold pre2. rewrite E2, <- app_assoc. reflexivity. }
    rewrite Ebuf, <- Hl1.
    rewrite (parsef_params_decodes types args pre1 (e2 ++ post)
               (Z.of_nat (length enc)) [] s Hlt Hty rest)
      by (fold pre2; lia).
    cbn [bind app]. fold pre2.
    destruct (command_parser.func cp (map uint32 args)
                (log_dispatch (uint8 cmdid) (map uint32 args) s))
      as [[] s1| |]; cbn [bind]; try reflexivity.
    fold pre2 in Ebuf. rewrite <- Ebuf.
    apply IH; [exact Hfit' | unfold enc in *; lia].
Qed.

(** X10.  Dispatch in wire order.  When the bytes between the cursor and
    [msgend] are commands one after the other, each an id byte followed
    by the VLQ of its arguments, and every command that has a handler
    takes that many integer parameters, the loop of [command_task] does
    what [dispatch_commands] does on the decoded list: handlers are
    called in wire order with the 32-bit argument values, and the loop
    stops early only at an unknown command, at the shutdown guard, or
    when a handler does not return. *)
Theorem dispatch_in_order (cmds : list (Z * list Z)) (pre post : list Z)
    (s : mcu) :
  Forall (fun c => forall cp,
              command_index (uint8 (fst c)) = Some cp ->
              command_fits cp (snd c)) cmds ->
  let buf := encode_commands cmds pre ++ post in
  let p := Z.of_nat (length pre) in
  let msgend := Z.of_nat (length (encode_commands cmds pre)) in
  command_task_loop (Z.to_nat (msgend - p)) buf p msgend s
  = dispatch_commands cmds s.
Proof.
  intros Hfit buf p msgend. apply dispatch_loop; [exact Hfit|].
  destruct (encode_commands_extends cmds pre) as (e & E).
  unfold msgend, p. rewrite E, length_app. lia.
Qed.

(** X11.  A frame of commands, end to end.  Let the input start with the
    frame that [sendf_frame] builds around the encoding of a list of
    commands, stamped with the expected sequence number, with no resync
    pending.  Then [command_task] acknowledges the frame, dispatches the
    commands as [dispatch_commands] does on the list, and, if the
    handlers return, pops exactly the frame and leaves what follows it
    in the input. *)
Theorem command_task_on_frame (cmds : list (Z * list Z)) (rest : list Z)
    (q : Z) (s : mcu) :
  let payload := encode_commands cmds [] in
  (length payload <= 59)%nat ->
  16 <= q < 32 ->
  next_sequence s = q ->
  has_flag (sync_state s) CF_NEED_SYNC = false ->
  Forall (fun c => forall cp,
              command_index (uint8 (fst c)) = Some cp ->
              command_fits cp (snd c)) cmds ->
  console_input s = sendf_frame q payload ++ rest ->
  exists s1,
    command_get_message s = Returns (Some (console_input s)) s1
    /\ console_input s1 = console_input s
    /\ next_sequence s1 = Z.lor 0x10 (Z.land (q + 1) 0x0F)
    /\ command_task s
       = (_ <- dispatch_commands cmds s1 ;;
          fun s' =>
            Returns tt
              (console_pop_input (Z.of_nat (length payload) + 5) s')).
Proof.
  intros payload Hn Hq Hnext Hsync Hfit Hin.
  destruct (frame_accepted payload rest q s Hn Hq Hsync Hin Hnext)
    as (s1 & E & Ei & En & _).
  destruct (sendf_frame_checks payload rest q s Hn Hq Hsync Hin)
    as (_ & Emsglen & _ & _).
  exists s1. split; [exact E|]. split; [exact Ei|]. split; [exact En|].
  unfold command_task. rewrite E. cbn [bind].
  fold (frame_msglen (console_input s)). rewrite Emsglen.
  set (n := Z.of_nat (length payload)) in *.
  pose proof (sendf_frame_shape q payload ltac:(lia) ltac:(lia)) as Hf.
  cbv zeta in Hf. fold n in Hf.
  set (crc := crc16_ccitt ([n + 5; q] ++ payload) (n + 2)) in *.
  assert (Hbuf : console_input s
                 = encode_commands cmds [n + 5; q]
                     ++ ([crc / 256; crc mod 256; MESSAGE_SYNC] ++ rest)).
  { rewrite Hin, Hf, <- app_assoc.
    rewrite <- (app_nil_r [n + 5; q]) at 2.
    rewrite encode_commands_app. reflexivity. }
  assert (Hlen : Z.of_nat (length (encode_commands cmds [n + 5; q]))
                 = n + 5 - MESSAGE_TRAILER_SIZE).
  { rewrite <- (app_nil_r [n + 5; q]), encode_commands_app, length_app.
    fold payload. cbn [length]. unfold MESSAGE_TRAILER_SIZE. lia. }
  rewrite Hbuf. rewrite <- Hlen.
  change MESSAGE_HEADER_SIZE with (Z.of_nat (length [n + 5; q])).
  rewrite dispatch_loop; [reflexivity | exact Hfit | lia].
Qed.

(** ** The VLQ encoding is the shortest *)

Lemma vlq_first_signed d :
  0 <= d < 128 ->
  vlq_first d = uint32 (if 96 <=? d then d - 128 else d).
Proof.
  intros Hd. unfold vlq_first, uint32.
  destruct (Z.leb_spec 96 d); div_mod_lia.
Qed.

(** The accumulator of the loop of [parse_int], read as a signed number:
    each byte read multiplies it by 128 and adds seven bits. *)
Lemma parse_int_loop_signed mem c x p v' p' :
  parse_int_loop mem c (uint32 x) p = Some (v', p') ->
  exists x',
    v' = uint32 x'
    /\ p <= p' <= p + Z.of_nat (length mem)
    /\ x * 128 ^ (p' - p) <= x' < (x + 1) * 128 ^ (p' - p).
Proof.
  revert c x p. induction mem as [|b mem IH]; intros c x p H;
    cbn [parse_int_loop] in H.
  - destruct (Z.land c 128 =? 0); [|discriminate].
    injection H as <- <-. exists x. rewrite Z.sub_diag. cbn [length].
    repeat split; lia.
  - destruct (Z.land c 128 =? 0) eqn:Ec.
    + injection H as <- <-. exists x. rewrite Z.sub_diag. cbn [length].
      repeat split; lia.
    + rewrite land_7f, lor_shiftl_7 in H
        by (apply Z.mod_pos_bound; lia).
      rewrite uint32_step in H.
      apply IH in H. destruct H as (x' & Ev & Hp & Hx).
      pose proof (Z.mod_pos_bound (uint8 b) 128 ltac:(lia)) as Hd.
      exists x'. split; [exact Ev|]. cbn [length]. split; [lia|].
      replace (p' - p) with (1 + (p' - (p + 1))) by lia.
      rewrite Z.pow_add_r by lia. change (128 ^ 1) with 128.
      assert (0 < 128 ^ (p' - (p + 1))) by (apply Z.pow_pos_nonneg; lia).
      nia.
Qed.

Lemma int32_of_signed x :
  -2147483648 <= x < 2147483648 -> int32 (uint32 x) = x.
Proof.
  intros H. unfold int32. rewrite uint32_idem. unfold uint32.
  destruct (Z.ltb_spec (x mod 4294967296) 2147483648); div_mod_lia.
Qed.

Lemma encode_int_length_le v k :
  (1 <= k <= 4)%nat ->
  - 32 * 128 ^ (Z.of_nat k - 1) <= int32 (uint32 v)
  < 96 * 128 ^ (Z.of_nat k - 1) ->
  (length (encode_int [] v) <= k)%nat.
Proof.
  intros Hk Hr. unfold encode_int. cbv zeta.
  change (Z.shiftl 3 5) with 96. change (Z.shiftl 1 5) with 32.
  change (Z.shiftl 3 12) with 12288. change (Z.shiftl 1 12) with 4096.
  change (Z.shiftl 3 19) with 1572864. change (Z.shiftl 1 19) with 524288.
  change (Z.shiftl 3 26) with 201326592. change (Z.shiftl 1 26) with 67108864.
  set (sv := int32 (uint32 v)) in *.
  assert (Hk' : (k = 1 \/ k = 2 \/ k = 3 \/ k = 4)%nat) by lia.
  destruct Hk' as [-> | [-> | [-> | ->]]]; cbn in Hr;
    repeat match goal with
           | |- context [(?a <? ?b) && (?a >=? ?c)] =>
               destruct (Z.ltb_spec a b); destruct (Z.geb_spec a c);
               cbn [andb]
           end; try lia; cbn; lia.
Qed.

(** X12.  The encoding is the shortest.  If [parse_int] decodes a byte
    string to [v] and consumes all of it, the string is at least as long
    as what [encode_int] writes for [v]. *)
Theorem vlq_minimal (bs : list Z) (v : Z) :
  parse_int bs 0 = Some (v, Z.of_nat (length bs)) ->
  (length (encode_int [] v) <= length bs)%nat.
Proof.
  intros H.
  destruct (encode_int_length [] v) as (k & Hk & Ek). cbn [length] in Ek.
  destruct (le_lt_dec 5 (length bs)) as [H5|H5]; [lia|].
  destruct bs as [|b mem]; [discriminate H|].
  change (b :: mem) with ([] ++ b :: mem) in H at 1.
  change 0 with (Z.of_nat (length (@nil Z))) in H at 1.
  rewrite parse_int_first in H.
  pose proof (Z.mod_pos_bound (uint8 b) 128 ltac:(lia)) as Hd.
  rewrite vlq_first_signed in H by lia.
  apply parse_int_loop_signed in H. destruct H as (x & Ev & _ & Hx).
  match type of Hx with
  | context [128 ^ ?e] =>
      replace e with (Z.of_nat (length mem)) in Hx by (cbn [length]; lia)
  end.
  set (P := 128 ^ Z.of_nat (length mem)) in *.
  assert (HP : 0 < P <= 128 ^ 3).
  { split; [apply Z.pow_pos_nonneg; lia|].
    apply Z.pow_le_mono_r; cbn [length] in *; lia. }
  change (128 ^ 3) with 2097152 in HP.
  assert (Hr : - 32 * P <= x < 96 * P).
  { revert Hx. destruct (Z.leb_spec 96 (uint8 b mod 128)); intros Hx; nia. }
  apply encode_int_length_le; [cbn [length] in *; lia|].
  replace (Z.of_nat (length (b :: mem)) - 1) with (Z.of_nat (length mem))
    by (cbn [length]; lia).
  fold P. rewrite Ev, uint32_idem, int32_of_signed; [exact Hr | nia].
Qed.

(** ** The CRC detects a changed byte *)

Lemma crc16_ccitt_loop_cons b bytes crc :
  crc16_ccitt_loop (b :: bytes) crc
  = crc16_ccitt_loop bytes (crc16_step crc b).
Proof. reflexivity. Qed.

Lemma crc16_ccitt_loop_app pre post crc :
  crc16_ccitt_loop (pre ++ post) crc
  = crc16_ccitt_loop post (crc16_ccitt_loop pre crc).
Proof.
  revert crc. induction pre as [|b pre IH]; intros crc; [reflexivity|].
  cbn [app]. rewrite !crc16_ccitt_loop_cons. apply IH.
Qed.

Lemma byte_cases2 (P : Z -> Z -> bool) :
  forallb (fun a => forallb (P a) all_bytes) all_bytes = true ->
  forall a b, 0 <= a < 256 -> 0 <= b < 256 -> P a b = true.
Proof.
  intros H a b Ha Hb. rewrite forallb_forall in H.
  assert (Hin : forall c, 0 <= c < 256 -> In c all_bytes).
  { intros c Hc. apply in_map_iff. exists (Z.to_nat c). split; [lia|].
    apply in_seq. lia. }
  specialize (H a (Hin a Ha)). rewrite forallb_forall in H.
  exact (H b (Hin b Hb)).
Qed.

Lemma lxor_byte a b : 0 <= a < 256 -> 0 <= b < 256 -> 0 <= Z.lxor a b < 256.
Proof.
  intros Ha Hb.
  pose proof (byte_cases2 (fun a b => (0 <=? Z.lxor a b) && (Z.lxor a b <? 256))
                ltac:(vm_compute; reflexivity) a b Ha Hb) as H.
  cbv beta in H. apply andb_prop in H. destruct H as [H1 H2].
  apply Z.leb_le in H1. apply Z.ltb_lt in H2. lia.
Qed.

Lemma crc16_mix_involutive d : 0 <= d < 256 -> crc16_mix (crc16_mix d) = d.
Proof.
  intros Hd. apply Z.eqb_eq.
  apply (byte_cases (fun d => crc16_mix (crc16_mix d) =? d));
    [vm_compute; reflexivity | exact Hd].
Qed.

Lemma crc16_mix_range d : 0 <= crc16_mix d < 256.
Proof. apply uint8_range. Qed.

(** The high byte of the folded state depends on the data byte alone and
    determines it; the low byte is the old high byte under a mask that
    depends on the data byte alone. *)
Lemma crc16_fold_split d hi :
  0 <= d < 256 -> 0 <= hi < 256 ->
  crc16_fold d hi / 256 = crc16_fold d 0 / 256
  /\ crc16_fold d hi mod 256 = Z.lxor hi (crc16_fold d 0 mod 256).
Proof.
  intros Hd Hh.
  pose proof (byte_cases2
    (fun d hi => (crc16_fold d hi / 256 =? crc16_fold d 0 / 256)
                 && (crc16_fold d hi mod 256
                     =? Z.lxor hi (crc16_fold d 0 mod 256)))
    ltac:(vm_compute; reflexivity) d hi Hd Hh) as H.
  cbv beta in H. apply andb_prop in H. destruct H as [H1 H2].
  apply Z.eqb_eq in H1. apply Z.eqb_eq in H2. split; assumption.
Qed.

Lemma crc16_fold_high_injective d1 d2 :
  0 <= d1 < 256 -> 0 <= d2 < 256 ->
  crc16_fold d1 0 / 256 = crc16_fold d2 0 / 256 -> d1 = d2.
Proof.
  intros H1 H2 E.
  pose proof (byte_cases2
    (fun d1 d2 => negb (crc16_fold d1 0 / 256 =? crc16_fold d2 0 / 256)
                  || (d1 =? d2))
    ltac:(vm_compute; reflexivity) d1 d2 H1 H2) as H.
  cbv beta in H. apply Z.eqb_eq in E. rewrite E in H. cbn [negb orb] in H.
  apply Z.eqb_eq in H. exact H.
Qed.

Lemma lxor_cancel_r a b c : Z.lxor a c = Z.lxor b c -> a = b.
Proof.
  intros H. apply (f_equal (fun x => Z.lxor x c)) in H.
  rewrite !Z.lxor_assoc, Z.lxor_nilpotent, !Z.lxor_0_r in H. exact H.
Qed.

Lemma lxor_cancel_l a b c : Z.lxor c a = Z.lxor c b -> a = b.
Proof. rewrite !(Z.lxor_comm c). apply lxor_cancel_r. Qed.

Lemma crc_halves crc :
  0 <= crc < 65536 ->
  0 <= Z.land crc 0xff < 256 /\ 0 <= Z.shiftr crc 8 < 256
  /\ crc = 256 * Z.shiftr crc 8 + Z.land crc 0xff.
Proof.
  intros H. change 0xff with (Z.ones 8).
  rewrite Z.land_ones, Z.shiftr_div_pow2 by lia. change (2 ^ 8) with 256.
  div_mod_lia.
Qed.

(** The data byte that a turn of the loop folds into the state. *)
Lemma crc16_step_data crc b :
  0 <= crc < 65536 ->
  exists d,
    0 <= d < 256
    /\ crc16_step crc b = crc16_fold d (Z.shiftr crc 8)
    /\ crc16_mix d = Z.lxor (uint8 b) (Z.land crc 0xff).
Proof.
  intros Hc. destruct (crc_halves crc Hc) as (Hlo & Hhi & _).
  pose proof (uint8_range b) as Hb.
  pose proof (lxor_byte (uint8 b) (Z.land crc 0xff) Hb Hlo) as Hx.
  exists (crc16_mix (Z.lxor (uint8 b) (Z.land crc 0xff))).
  split; [apply crc16_mix_range|]. split.
  - unfold crc16_step. rewrite uint8_char_val, (uint8_small (Z.lxor _ _)) by lia.
    reflexivity.
  - apply crc16_mix_involutive. exact Hx.
Qed.

Lemma crc16_step_range crc b : 0 <= crc16_step crc b < 65536.
Proof. apply uint16_range. Qed.

Lemma crc16_fold_injective d1 h1 d2 h2 :
  0 <= d1 < 256 -> 0 <= h1 < 256 -> 0 <= d2 < 256 -> 0 <= h2 < 256 ->
  crc16_fold d1 h1 = crc16_fold d2 h2 -> d1 = d2 /\ h1 = h2.
Proof.
  intros Hd1 Hh1 Hd2 Hh2 E.
  destruct (crc16_fold_split d1 h1 Hd1 Hh1) as [A1 B1].
  destruct (crc16_fold_split d2 h2 Hd2 Hh2) as [A2 B2].
  assert (Ed : d1 = d2).
  { apply crc16_fold_high_injective; try assumption.
    rewrite <- A1, <- A2, E. reflexivity. }
  split; [exact Ed|]. subst d2.
  rewrite E, B2 in B1. apply lxor_cancel_r in B1. symmetry. exact B1.
Qed.

Lemma crc16_step_injective_byte crc b1 b2 :
  0 <= crc < 65536 ->
  crc16_step crc b1 = crc16_step crc b2 -> uint8 b1 = uint8 b2.
Proof.
  intros Hc E. destruct (crc_halves crc Hc) as (Hlo & Hhi & _).
  destruct (crc16_step_data crc b1 Hc) as (d1 & Hd1 & E1 & M1).
  destruct (crc16_step_data crc b2 Hc) as (d2 & Hd2 & E2 & M2).
  rewrite E1, E2 in E.
  apply crc16_fold_injective in E; try assumption. destruct E as [<- _].
  rewrite M1 in M2. apply lxor_cancel_r in M2. exact M2.
Qed.

Lemma crc16_step_injective_state c1 c2 b :
  0 <= c1 < 65536 -> 0 <= c2 < 65536 ->
  crc16_step c1 b = crc16_step c2 b -> c1 = c2.
Proof.
  intros H1 H2 E.
  destruct (crc_halves c1 H1) as (Hlo1 & Hhi1 & Ec1).
  destruct (crc_halves c2 H2) as (Hlo2 & Hhi2 & Ec2).
  destruct (crc16_step_data c1 b H1) as (d1 & Hd1 & E1 & M1).
  destruct (crc16_step_data c2 b H2) as (d2 & Hd2 & E2 & M2).
  rewrite E1, E2 in E.
  apply crc16_fold_injective in E; try assumption. destruct E as [<- Eh].
  rewrite M1 in M2. apply lxor_cancel_l in M2. lia.
Qed.

Lemma crc16_ccitt_loop_injective bytes c1 c2 :
  0 <= c1 < 65536 -> 0 <= c2 < 65536 ->
  crc16_ccitt_loop bytes c1 = crc16_ccitt_loop bytes c2 -> c1 = c2.
Proof.
  revert c1 c2. induction bytes as [|b bytes IH]; intros c1 c2 H1 H2 E.
  - exact E.
  - rewrite !crc16_ccitt_loop_cons in E.
    apply IH in E; try apply crc16_step_range.
    apply (crc16_step_injective_state c1 c2 b H1 H2 E).
Qed.

Lemma crc16_changed_byte pre post b1 b2 :
  board.HAVE_OPTIMIZED_CRC B = false ->
  Z.of_nat (length pre) + 1 + Z.of_nat (length post) < 256 ->
  crc16_ccitt (pre ++ b1 :: post)
    (Z.of_nat (length pre) + 1 + Z.of_nat (length post))
  = crc16_ccitt (pre ++ b2 :: post)
      (Z.of_nat (length pre) + 1 + Z.of_nat (length post)) ->
  uint8 b1 = uint8 b2.
Proof.
  intros Hgen Hlen E. unfold crc16_ccitt in E. rewrite Hgen in E.
  rewrite uint8_small in E by lia.
  rewrite !firstn_all2 in E by (rewrite length_app; cbn [length]; lia).
  rewrite !crc16_ccitt_loop_app, !crc16_ccitt_loop_cons in E.
  apply crc16_ccitt_loop_injective in E; try apply crc16_step_range.
  apply crc16_step_injective_byte in E; [exact E|].
  apply crc16_ccitt_loop_range. lia.
Qed.

(** X13.  The generic CRC detects a changed byte.  With the loop of
    [crc16_ccitt] (no board CRC), two buffers of the same length, under
    256 bytes, that differ in exactly one byte have different CRCs. *)
Theorem crc16_detects_changed_byte (pre post : list Z) (b1 b2 : Z) :
  board.HAVE_OPTIMIZED_CRC B = false ->
  Z.of_nat (length pre) + 1 + Z.of_nat (length post) < 256 ->
  uint8 b1 <> uint8 b2 ->
  crc16_ccitt (pre ++ b1 :: post)
    (Z.of_nat (length pre) + 1 + Z.of_nat (length post))
  <> crc16_ccitt (pre ++ b2 :: post)
       (Z.of_nat (length pre) + 1 + Z.of_nat (length post)).
Proof.
  intros Hgen Hlen Hne E. apply Hne.
  exact (crc16_changed_byte pre post b1 b2 Hgen Hlen E).
Qed.

(** ** A corrupted frame is not accepted *)

Lemma list_split_at (l : list Z) (i : nat) :
  (i < length l)%nat ->
  l = firstn i l ++ nth i l 0 :: skipn (S i) l.
Proof.
  revert i. induction l as [|a l IH]; intros i Hi; [cbn in Hi; lia|].
  destruct i as [|i]; [reflexivity|].
  cbn [firstn nth skipn app]. f_equal. apply IH. cbn in Hi. lia.
Qed.

Lemma crc_check_fails_on_mismatch s :
  crc16_ccitt (console_input s)
    (frame_msglen (console_input s) - MESSAGE_TRAILER_SIZE)
  <> be16 (peek (console_input s) (frame_msglen (console_input s) - 3))
          (peek (console_input s) (frame_msglen (console_input s) - 2)) ->
  crc_check_passes s = false.
Proof.
  intros H. unfold crc_check_passes. rewrite trailer_crc_be16.
  unfold MESSAGE_TRAILER_CRC.
  replace (frame_msglen (console_input s) - 3 + 1)
    with (frame_msglen (console_input s) - 2) by lia.
  apply andb_false_intro2. apply Z.eqb_neq. exact H.
Qed.

Lemma crc_check_fails_without_sync s :
  uint8 (peek (console_input s)
           (frame_msglen (console_input s) - MESSAGE_TRAILER_SYNC))
  <> MESSAGE_SYNC ->
  crc_check_passes s = false.
Proof.
  intros H. unfold crc_check_passes, reaches_crc_check, console_get_input.
  rewrite char_val_sync. apply Z.eqb_neq in H. rewrite H.
  rewrite !andb_false_r. reflexivity.
Qed.

(** X14.  A corrupted frame is not accepted.  With the generic CRC, take
    the frame that [sendf_frame] builds and replace any one byte after
    the LEN byte (sequence byte, payload, CRC or sync byte) by a
    different byte.  With that at the front of the input the checks of
    [command_get_message] do not pass and no frame is returned. *)
Theorem corrupted_frame_rejected (payload rest : list Z) (q b' : Z) (i : nat)
    (s : mcu) :
  board.HAVE_OPTIMIZED_CRC B = false ->
  (length payload <= 59)%nat ->
  16 <= q < 32 ->
  (1 <= i < length (sendf_frame q payload))%nat ->
  uint8 b' <> uint8 (nth i (sendf_frame q payload) 0) ->
  console_input s
  = firstn i (sendf_frame q payload)
      ++ b' :: skipn (S i) (sendf_frame q payload) ++ rest ->
  crc_check_passes s = false
  /\ exists s', command_get_message s = Returns None s'.
Proof.
  intros Hgen Hn Hq Hi Hb Hin.
  assert (Hfail : crc_check_passes s = false).
  2:{ split; [exact Hfail|].
      destruct (cgm_fails s Hfail) as (s' & E & _). exists s'. exact E. }
  pose proof (sendf_frame_shape q payload ltac:(lia) ltac:(lia)) as Hf.
  cbv zeta in Hf. set (n := Z.of_nat (length payload)) in *.
  set (C := [n + 5; q] ++ payload) in *.
  set (crc := crc16_ccitt C (n + 2)) in *.
  pose proof (crc16_ccitt_range C (n + 2)) as Hc. fold crc in Hc.
  assert (HlenC : Z.of_nat (length C) = n + 2).
  { unfold C. rewrite length_app. cbn [length]. lia. }
  rewrite Hf in Hi, Hb, Hin. rewrite length_app in Hi. cbn [length] in Hi.
  assert (Emsglen : frame_msglen (console_input s) = n + 5).
  { unfold frame_msglen. rewrite Hin, uint8_char_val.
    destruct i as [|i]; [lia|]. unfold C. cbn [app firstn].
    unfold MESSAGE_POS_LEN. rewrite peek_0. apply uint8_small. lia. }
  destruct (le_lt_dec (length C) i) as [Htrail|Hcov].
  - (* the changed byte is in the trailer *)
    assert (Ej : exists j, i = (length C + j)%nat /\ (j < 3)%nat).
    { exists (i - length C)%nat. lia. }
    destruct Ej as (j & -> & Hj).
    rewrite firstn_app, firstn_all2 in Hin by lia.
    replace (S (length C + j)) with (length C + S j)%nat in Hin by lia.
    rewrite skipn_app, skipn_all2 in Hin by lia.
    replace (length C + j - length C)%nat with j in Hin by lia.
    replace (length C + S j - length C)%nat with (S j) in Hin by lia.
    rewrite app_nth2 in Hb by lia.
    replace (length C + j - length C)%nat with j in Hb by lia.
    cbn [app] in Hin. rewrite <- app_assoc in Hin.
    assert (Htr : forall k, 0 <= k ->
               peek (console_input s) (n + 2 + k)
               = peek (firstn j [crc / 256; crc mod 256; MESSAGE_SYNC]
                         ++ b' :: skipn (S j)
                                    [crc / 256; crc mod 256; MESSAGE_SYNC]
                         ++ rest) k).
    { intros k Hk. rewrite Hin, peek_app_r by lia. f_equal. lia. }
    assert (Ecrc : crc16_ccitt (console_input s) (n + 2) = crc).
    { rewrite Hin. apply crc16_ccitt_prefix; lia. }
    assert (Hhi : uint8 (crc / 256) = crc / 256)
      by (apply uint8_small; div_mod_lia).
    assert (Hlo : uint8 (crc mod 256) = crc mod 256)
      by (apply uint8_small; div_mod_lia).
    destruct j as [|[|[|j]]]; [| | |lia]; cbn [nth firstn skipn app] in *.
    + apply crc_check_fails_on_mismatch. rewrite Emsglen.
      unfold MESSAGE_TRAILER_SIZE.
      replace (n + 5 - 3) with (n + 2 + 0) by lia.
      replace (n + 5 - 2) with (n + 2 + 1) by lia.
      rewrite !Htr by lia. rewrite Z.add_0_r, Ecrc.
      change (peek (b' :: _) 0) with b'.
      change (peek (b' :: _) 1) with (crc mod 256).
      unfold be16. rewrite Hlo. pose proof (uint8_range b').
      intros E. apply Hb. rewrite Hhi. div_mod_lia.
    + apply crc_check_fails_on_mismatch. rewrite Emsglen.
      unfold MESSAGE_TRAILER_SIZE.
      replace (n + 5 - 3) with (n + 2 + 0) by lia.
      replace (n + 5 - 2) with (n + 2 + 1) by lia.
      rewrite !Htr by lia. rewrite Z.add_0_r, Ecrc.
      change (peek (_ :: b' :: _) 0) with (crc / 256).
      change (peek (_ :: b' :: _) 1) with b'.
      unfold be16. rewrite Hhi. pose proof (uint8_range b').
      intros E. apply Hb. rewrite Hlo. div_mod_lia.
    + apply crc_check_fails_without_sync. rewrite Emsglen.
      unfold MESSAGE_TRAILER_SYNC.
      replace (n + 5 - 1) with (n + 2 + 2) by lia.
      rewrite Htr by lia.
      change (peek (_ :: _ :: b' :: _) 2) with b'. exact Hb.
  - (* the changed byte is under the CRC *)
    rewrite firstn_app in Hin.
    replace (i - length C)%nat with 0%nat in Hin by lia.
    cbn [firstn] in Hin. rewrite app_nil_r in Hin.
    rewrite skipn_app in Hin.
    replace (S i - length C)%nat with 0%nat in Hin by lia.
    cbn [skipn] in Hin. rewrite app_nth1 in Hb by lia.
    assert (Hin' : console_input s
                   = (firstn i C ++ b' :: skipn (S i) C)
                       ++ ([crc / 256; crc mod 256; MESSAGE_SYNC] ++ rest)).
    { rewrite Hin, <- !app_assoc. cbn [app]. rewrite <- ?app_assoc.
      reflexivity. }
    clear Hin. rename Hin' into Hin.
    assert (HlenC' : Z.of_nat (length (firstn i C ++ b' :: skipn (S i) C))
                     = n + 2).
    { rewrite length_app, length_firstn. cbn [length].
      rewrite length_skipn. lia. }
    apply crc_check_fails_on_mismatch. rewrite Emsglen.
    unfold MESSAGE_TRAILER_SIZE.
    replace (n + 5 - 3) with (n + 2) by lia.
    rewrite Hin at 1. rewrite crc16_ccitt_prefix by lia.
    assert (Htr : forall k, 0 <= k ->
               peek (console_input s) (n + 2 + k)
               = peek ([crc / 256; crc mod 256; MESSAGE_SYNC] ++ rest) k).
    { intros k Hk. rewrite Hin, peek_app_r by lia. f_equal. lia. }
    replace (n + 2) with (n + 2 + 0) at 2 by lia.
    replace (n + 5 - 2) with (n + 2 + 1) by lia.
    rewrite !Htr by lia. cbn [app].
    change (peek _ 0) with (crc / 256). change (peek _ 1) with (crc mod 256).
    rewrite be16_split by lia.
    intros E. apply Hb. symmetry in E. unfold crc in E.
    rewrite (list_split_at C i Hcov) in E at 1.
    replace (n + 2)
      with (Z.of_nat (length (firstn i C)) + 1
            + Z.of_nat (length (skipn (S i) C))) in E
      by (rewrite length_firstn, length_skipn; lia).
    apply crc16_changed_byte in E;
      [symmetry; exact E | exact Hgen |].
    rewrite length_firstn, length_skipn. lia.
Qed.

(** ** Messages sized for the worst case *)

Lemma encode_int_length_bound out v :
  (length out < length (encode_int out v) <= length out + 5)%nat.
Proof.
  destruct (encode_int_length out v) as (k & Hk & E). lia.
Qed.

Lemma sendf_params_vlq_returns types ints rest more maxend out s :
  length types = length ints ->
  Forall (fun t => is_vlq_type t = true) types ->
  MESSAGE_HEADER_SIZE + Z.of_nat (length out) + 5 * Z.of_nat (length ints)
  <= maxend + 5 ->
  let vals := map (fun ta => sendf_int (fst ta) (snd ta)) (combine types ints) in
  sendf_params (length types) (types ++ rest) (map VA_int ints ++ more)
    maxend out s = Returns (encode_args vals out) s
  /\ Z.of_nat (length (encode_args vals out))
     <= Z.of_nat (length out) + 5 * Z.of_nat (length ints).
Proof.
  revert ints out.
  induction types as [|t types IH]; intros ints out Hlen Hty Hmax;
    destruct ints as [|a ints]; try discriminate Hlen; cbv zeta.
  - cbn. split; [reflexivity | lia].
  - cbn [length sendf_params app map combine encode_args fold_left fst snd]
      in *.
    destruct (Z.gtb_spec (MESSAGE_HEADER_SIZE + Z.of_nat (length out)) maxend);
      [lia|].
    inversion Hty as [|? ? Ht Hty']; subst. rewrite Ht.
    fold (sendf_int t a).
    pose proof (encode_int_length_bound out (sendf_int t a)) as Hb.
    destruct (IH ints (encode_int out (sendf_int t a))) as [E Hl];
      try assumption; try lia.
    cbv zeta in E, Hl. unfold encode_args in *. rewrite E.
    split; [reflexivity | lia].
Qed.

(** X15.  A message sized for the worst case is always sent.  Let every
    parameter of the encoder be of integer type, the call pass as many
    integers, and [max_size], at most 59, cover the message id and five
    bytes for each parameter.  If the transport grants the reservation,
    [_sendf] never ends in "Message encode error": it pushes one frame,
    whose payload is the id followed by the VLQ of each value and is no
    longer than [max_size], so the frame fits the reservation of
    [max_size + 5] bytes. *)
Theorem sendf_sized_message (cp : command_encoder.t) (types rest ints : list Z)
    (s : mcu) :
  command_encoder.param_types cp = types ++ rest ->
  command_encoder.num_params cp = Z.of_nat (length ints) ->
  length types = length ints ->
  Forall (fun t => is_vlq_type t = true) types ->
  1 + 5 * Z.of_nat (length ints) <= command_encoder.max_size cp <= 59 ->
  0 <= next_sequence s < 256 ->
  console_get_output (command_encoder.max_size cp + MESSAGE_MIN) s = true ->
  let vals := map (fun ta => sendf_int (fst ta) (snd ta)) (combine types ints) in
  let payload := encode_args vals [uint8 (command_encoder.msg_id cp)] in
  let frame := sendf_frame (next_sequence s) payload in
  Z.of_nat (length payload) <= command_encoder.max_size cp
  /\ Z.of_nat (length frame) = Z.of_nat (length payload) + 5
  /\ _sendf cp (map VA_int ints) s
     = Returns tt
         (console_push_output frame (Z.of_nat (length frame)) s)
  /\ console_output (console_push_output frame (Z.of_nat (length frame)) s)
     = console_output s ++ [frame].
Proof.
  intros Ety En Hlen Hty Hmax Hseq Hroom vals payload frame.
  assert (Hu : uint8 (command_encoder.max_size cp)
               = command_encoder.max_size cp) by (apply uint8_small; lia).
  destruct (sendf_params_vlq_returns types ints rest [] 
              (MESSAGE_HEADER_SIZE + command_encoder.max_size cp)
              [uint8 (command_encoder.msg_id cp)] s Hlen Hty)
    as [E Hl].
  { cbn [length]. unfold MESSAGE_HEADER_SIZE. lia. }
  cbv zeta in E, Hl. fold vals in E, Hl. fold payload in E, Hl.
  cbn [length] in Hl.
  assert (Hp : Z.of_nat (length payload) <= command_encoder.max_size cp)
    by lia.
  assert (Hfl : Z.of_nat (length frame) = Z.of_nat (length payload) + 5).
  { apply sendf_frame_length; lia. }
  split; [exact Hp|]. split; [exact Hfl|]. split.
  - unfold _sendf, sendf_payload. rewrite Hu.
    rewrite (uint8_small (command_encoder.max_size cp + MESSAGE_MIN))
      by (unfold MESSAGE_MIN; lia).
    rewrite Hroom. cbn [negb].
    destruct (Z.eqb_spec (command_encoder.max_size cp) 0); [lia|].
    rewrite En, Ety, uint8_small, Nat2Z.id by lia.
    rewrite <- Hlen. rewrite app_nil_r in E. unfold put. cbn [app].
    rewrite E. cbn [bind]. fold frame.
    rewrite Hfl, uint8_small by (unfold MESSAGE_HEADER_SIZE, MESSAGE_TRAILER_SIZE; lia).
    do 2 f_equal. unfold MESSAGE_HEADER_SIZE, MESSAGE_TRAILER_SIZE. lia.
  - cbn [console_push_output console_output].
    rewrite Nat2Z.id, firstn_all. reflexivity.
Qed.

(** ** Buffers: truncation and round trip *)

(** X16.  A buffer parameter.  [_sendf] writes a buffer (from RAM or
    from program memory alike) as a length byte and that many bytes,
    where the length is the argument, cut down to the space left before
    [maxend].  [parsef], on the bytes written, returns that length and
    the offset of the first byte as the two arguments, leaves the cursor
    after the last byte, and the bytes at that offset are the first
    bytes of the source. *)
Theorem buffer_roundtrip (t a : Z) (src : list Z) (types types' : list Z)
    (more : list va_item) (maxend : Z) (out post args0 : list Z)
    (s s' : mcu) (maxend_p : Z) :
  t = PT_buffer \/ t = PT_progmem_buffer ->
  let p := MESSAGE_HEADER_SIZE + Z.of_nat (length out) in
  let v := Z.min (uint32 a) (maxend - p) in
  p <= maxend ->
  maxend - p < 256 ->
  v <= Z.of_nat (length src) ->
  let bytes := map uint8 (firstn (Z.to_nat v) src) in
  let out' := out ++ [v] ++ bytes in
  sendf_params 1 (t :: types) (VA_int a :: VA_ptr src :: more) maxend out s
  = Returns out' s
  /\ (Z.of_nat (length out') <= maxend_p ->
      parsef_params 1 (PT_buffer :: types') (out' ++ post)
        (Z.of_nat (length out)) maxend_p args0 s'
      = Returns
          (Some (Z.of_nat (length out'),
                 args0 ++ [v; Z.of_nat (length out) + 1])) s'
      /\ firstn (Z.to_nat v)
           (skipn (Z.to_nat (Z.of_nat (length out) + 1)) (out' ++ post))
         = bytes).
Proof.
  intros Ht p v Hp Hsmall Hsrc bytes out'.
  pose proof (uint32_range a) as Ha.
  assert (Hv : 0 <= v < 256) by (unfold v; lia).
  assert (Hlb : length bytes = Z.to_nat v).
  { unfold bytes. rewrite length_map, length_firstn. lia. }
  assert (Hlo : Z.of_nat (length out') = Z.of_nat (length out) + 1 + v).
  { unfold out'. rewrite !length_app, Hlb. cbn [length]. lia. }
  split.
  - cbn [sendf_params]. fold p.
    destruct (Z.gtb_spec p maxend); [lia|].
    assert (Hty : is_vlq_type t = false /\ (t =? PT_string) = false
                  /\ (t =? PT_progmem_buffer) || (t =? PT_buffer) = true).
    { destruct Ht as [-> | ->]; repeat split. }
    destruct Hty as (-> & -> & ->).
    assert (Ev : (if uint32 a >? maxend - p then maxend - p else uint32 a) = v).
    { unfold v. destruct (Z.gtb_spec (uint32 a) (maxend - p)); lia. }
    rewrite Ev. unfold memcpy.
    destruct (Z.ltb_spec (Z.of_nat (length src)) v); [lia|].
    fold bytes. unfold put. rewrite (uint8_small v Hv), <- app_assoc.
    reflexivity.
  - intros Hmax. split.
    + rewrite Hlo in *. cbn [parsef_params].
      destruct (Z.gtb_spec (Z.of_nat (length out)) maxend_p); [lia|].
      change (is_vlq_type PT_buffer) with false.
      change (PT_buffer =? PT_buffer) with true. cbv iota.
      unfold out'. rewrite <- app_assoc, Nat2Z.id, nth_error_app2 by lia.
      rewrite Nat.sub_diag. cbn [app nth_error].
      rewrite uint8_char_val, (uint8_small v Hv).
      destruct (Z.gtb_spec (Z.of_nat (length out) + 1 + v) maxend_p); [lia|].
      reflexivity.
    + unfold out'.
      replace (Z.to_nat (Z.of_nat (length out) + 1))
        with (length (out ++ [v])) by (rewrite length_app; cbn [length]; lia).
      rewrite <- !app_assoc.
      change (out ++ [v] ++ bytes ++ post)
        with (out ++ [v] ++ (bytes ++ post)).
      rewrite app_assoc, skipn_app, skipn_all, Nat.sub_diag.
      cbn [app skipn]. rewrite <- Hlb.
      rewrite firstn_app, Nat.sub_diag, firstn_all. cbn [firstn].
      apply app_nil_r.
Qed.

(** ** Strings *)

Lemma copy_string_prefix chars nul tail room :
  Forall (fun c => uint8 c <> 0) chars ->
  uint8 nul = 0 ->
  copy_string (chars ++ nul :: tail) room
  = Some (map uint8 (firstn room chars)).
Proof.
  intros Hc Hn. revert room.
  induction Hc as [|c chars Hc0 Hc IH]; intros [|room];
    cbn [app copy_string firstn map]; try reflexivity.
  - rewrite Hn. reflexivity.
  - destruct (Z.eqb_spec (uint8 c) 0); [contradiction|].
    rewrite IH. reflexivity.
Qed.

(** X17.  A string parameter.  [_sendf] writes a NUL-terminated string
    as a length byte followed by its characters up to the NUL, or up to
    [maxend] if that comes first; the NUL itself is never written, and
    the length byte counts the characters written. *)
Theorem string_encoding (chars tail : list Z) (nul : Z) (types : list Z)
    (more : list va_item) (maxend : Z) (out : list Z) (s : mcu) :
  Forall (fun c => uint8 c <> 0) chars ->
  uint8 nul = 0 ->
  let p := MESSAGE_HEADER_SIZE + Z.of_nat (length out) in
  p <= maxend ->
  maxend - p <= 256 ->
  let k := Z.min (Z.of_nat (length chars)) (Z.max 0 (maxend - (p + 1))) in
  sendf_params 1 (PT_string :: types) (VA_ptr (chars ++ nul :: tail) :: more)
    maxend out s
  = Returns (out ++ [k] ++ map uint8 (firstn (Z.to_nat k) chars)) s.
Proof.
  intros Hc Hn p Hp Hsmall k. cbn [sendf_params]. fold p.
  destruct (Z.gtb_spec p maxend); [lia|].
  change (is_vlq_type PT_string) with false.
  change (PT_string =? PT_string) with true. cbv iota.
  rewrite copy_string_prefix by assumption.
  assert (Ef : firstn (Z.to_nat (maxend - (p + 1))) chars
               = firstn (Z.to_nat k) chars).
  { destruct (Z.le_gt_cases (Z.of_nat (length chars))
                (Z.max 0 (maxend - (p + 1)))).
    - rewrite !firstn_all2 by lia. reflexivity.
    - f_equal. lia. }
  rewrite Ef. unfold put.
  rewrite length_map, length_firstn.
  replace (Z.of_nat (Nat.min (Z.to_nat k) (length chars))) with k by lia.
  rewrite uint8_small by lia. rewrite <- app_assoc. reflexivity.
Qed.
End Core.

(** ** The parser bound on the final parameter *)

(** C8.  The code at a frame whose only command, 7 with one [uint32]
    parameter, ends in a VLQ byte with its continuation bit set: the
    frame is [sendf_frame 0x10 [7; 0x80]], so [msgend] is 4 and [parsef]
    starts at 3.  [parse_int] reads on into the CRC, the cursor ends at
    5, past [maxend], and [parsef] returns it without a shutdown;
    [command_task] calls the handler with the argument 24 made of the
    payload byte and a CRC byte.  The same crossing is caught when a
    second parameter follows, and the [PT_buffer] case catches a crossing
    by the final parameter itself. *)
Theorem parsef_final_parameter_overrun :
  let frame := [7; 16; 7; 128; 24; 149; 126] in
  let s := example_state frame 100 false in
  sendf_frame (example_board example_parser) 0x10 [7; 0x80] = frame
  /\ parsef (example_board example_parser) frame 3 4 example_parser s
     = Returns (Some (5, [24])) s
  /\ (exists s',
         command_task (example_board example_parser) s = Returns tt s'
         /\ dispatched s' = [(7, [24])])
  /\ (exists s',
         command_task (example_board example_parser2) s
         = Shutdown "Command parser error" s')
  /\ (exists s',
         command_task (example_board example_parser_buffer)
           (example_state
              (sendf_frame (example_board example_parser_buffer) 0x10 [7; 1])
              100 false)
         = Shutdown "Command parser error" s').
Proof.
  cbv zeta. split; [vm_compute; reflexivity|].
  split; [vm_compute; reflexivity|].
  split; [eexists; split; vm_compute; reflexivity|].
  split; eexists; vm_compute; reflexivity.
Qed.

(** ** Instances of the theorems *)

Lemma vlq_roundtrip_witness :
  parse_int (encode_int [1; 2] 0x80000000 ++ [3]) 2 = Some (0x80000000, 7).
Proof. apply (vlq_roundtrip [1; 2] [3] 0x80000000). lia. Defined.

Lemma frame_roundtrip_witness :
  exists s',
    command_get_message (example_board example_parser)
      (example_state [7; 16; 7; 42; 18; 197; 126] 100 false)
    = Returns (Some [7; 16; 7; 42; 18; 197; 126]) s'
    /\ frame_payload (example_board example_parser)
         [7; 16; 7; 42; 18; 197; 126] = [7; 42]
    /\ frame_seq (example_board example_parser)
         [7; 16; 7; 42; 18; 197; 126] = 0.
Proof.
  apply (frame_roundtrip (example_board example_parser) [7; 42] [] 0
           (example_state [7; 16; 7; 42; 18; 197; 126] 100 false)).
  - cbn. lia.
  - lia.
  - reflexivity.
  - reflexivity.
  - vm_compute. reflexivity.
Defined.

Lemma sequence_number_state_machine_witness :
  exists s',
    command_get_message (example_board example_parser)
      (example_state [7; 16; 7; 42; 18; 197; 126] 100 false)
    = Returns (Some [7; 16; 7; 42; 18; 197; 126]) s'
    /\ next_sequence s' = 17.
Proof.
  destruct (sequence_number_state_machine (example_board example_parser)
              (example_state [7; 16; 7; 42; 18; 197; 126] 100 false))
    as (s' & E & En & Hacc).
  exists s'. split; [exact E|].
  destruct (Hacc ltac:(vm_compute; reflexivity)) as [_ ->].
  reflexivity.
Defined.

Lemma nak_suppression_witness :
  (exists s',
      invalid_run (example_board example_parser)
        [([255; 255], 100); ([1; 2; 126], 100); ([3; 4; 5; 6; 7; 8], 100)]
        (example_state [] 100 false) = Some s'
      /\ Z.of_nat (length (console_output s')) <= 0 + 1)
  /\ command_get_message_error (example_board example_parser)
       [126; 5; 16; 0; 0] 5 (example_state [126; 5; 16; 0; 0] 100 false)
     = Returns None (example_state [5; 16; 0; 0] 100 false).
Proof.
  pose proof (nak_suppression (example_board example_parser))
    as (_ & _ & Hsync & Hrun).
  split.
  - eexists. split; [vm_compute; reflexivity|].
    apply (Hrun [([255; 255], 100); ([1; 2; 126], 100);
                 ([3; 4; 5; 6; 7; 8], 100)] (example_state [] 100 false)).
    vm_compute. reflexivity.
  - apply (Hsync [126; 5; 16; 0; 0] 5
             (example_state [126; 5; 16; 0; 0] 100 false)).
    reflexivity.
Defined.

(** A 64-byte frame, 59 zero bytes of payload, is returned; the same
    input with 65 as its LEN byte is rejected. *)
Lemma frame_length_bounds_witness :
  (exists s',
      command_get_message (example_board example_parser)
        (example_state
           (sendf_frame (example_board example_parser) 0x10 (repeat 0 59))
           100 false)
      = Returns
          (Some (sendf_frame (example_board example_parser) 0x10 (repeat 0 59)))
          s')
  /\ (exists s',
         command_get_message (example_board example_parser)
           (example_state
              (65 :: tl (sendf_frame (example_board example_parser) 0x10
                           (repeat 0 59)) ++ [0])
              100 false)
         = Returns None s').
Proof.
  split.
  - pose proof (frame_length_bounds (example_board example_parser)
                  (example_state
                     (sendf_frame (example_board example_parser) 0x10
                        (repeat 0 59)) 100 false)) as (_ & _ & H64).
    cbv zeta in H64.
    destruct H64 as [_ Hacc]; try (vm_compute; reflexivity).
    + vm_compute. discriminate.
    + apply Hacc. vm_compute. reflexivity.
  - pose proof (frame_length_bounds (example_board example_parser)
                  (example_state
                     (65 :: tl (sendf_frame (example_board example_parser) 0x10
                                  (repeat 0 59)) ++ [0]) 100 false))
      as (_ & H65 & _).
    apply H65. vm_compute. reflexivity.
Defined.

(** With signed [char], on a frame whose stored high CRC byte, 158, has
    bit 7 set. *)
Lemma crc_comparison_witness :
  trailer_crc (example_board example_parser) [5; 16; 158; 129; 126] 5
  = 158 * 256 + 129
  /\ crc_check_passes (example_board example_parser)
       (example_state [5; 16; 158; 129; 126] 100 false) = true.
Proof.
  destruct (crc_comparison (example_board example_parser)
              (example_state [5; 16; 158; 129; 126] 100 false)
              ltac:(vm_compute; reflexivity)) as (Et & Ep & _).
  split.
  - exact Et.
  - rewrite Ep. vm_compute. reflexivity.
Defined.


Lemma sendf_empty_payload_frame_witness :
  _sendf (example_board example_parser) encoder_empty []
    (example_state [] 100 false)
  = Returns tt
      (console_push_output [5; 16; 158; 129; 126] 5
         (example_state [] 100 false)).
Proof.
  pose proof (proj1 (sendf_empty_payload_frame (example_board example_parser))
                encoder_empty [] (example_state [] 100 false)
                ltac:(reflexivity) ltac:(change (0 <= 16 < 256); lia)
                ltac:(reflexivity)) as H.
  cbv zeta in H. destruct H as (_ & E & _). exact E.
Defined.

(** ** Instances of the further properties *)

(** The frame [sendf_frame 0x11 [7; 42]] arrives while sequence 0x10 is
    expected: it is popped and answered by a NAK that repeats 0x10. *)
Lemma reply_to_valid_frame_witness :
  exists s',
    command_get_message (example_board example_parser)
      (example_state [7; 17; 7; 42; 72; 25; 126] 100 false)
    = Returns None s'
    /\ console_input s' = []
    /\ console_output s' = [[5; 16; 158; 129; 126]].
Proof.
  pose proof (reply_to_valid_frame (example_board example_parser)
                (example_state [7; 17; 7; 42; 72; 25; 126] 100 false)
                ltac:(vm_compute; reflexivity)) as H.
  cbv zeta in H. destruct H as (r & s' & E & _ & _ & Hnak).
  destruct (Hnak ltac:(vm_compute; discriminate)) as (Er & Ei & _ & Eo).
  exists s'. rewrite Er in E.
  split; [exact E|]. split; [exact Ei | exact Eo].
Defined.

(** The first three bytes of [sendf_frame 0x10 [7; 42]], then the other
    four. *)
Lemma fragmented_frame_witness :
  command_get_message (example_board example_parser)
    (example_state [7; 16; 7] 100 false)
  = Returns None (example_state [7; 16; 7] 100 false)
  /\ exists s',
       command_get_message (example_board example_parser)
         (arrive [42; 18; 197; 126] 100 (example_state [7; 16; 7] 100 false))
       = Returns (Some [7; 16; 7; 42; 18; 197; 126]) s'.
Proof.
  pose proof (fragmented_frame (example_board example_parser) [7; 42] 16 100 3
                (example_state [7; 16; 7] 100 false)
                ltac:(cbn; lia) ltac:(lia) ltac:(reflexivity)
                ltac:(vm_compute; lia) ltac:(reflexivity)) as [E H].
  split; [exact E|]. exact (H eq_refl).
Defined.


(** Five bytes of garbage, a sync byte and [sendf_frame 0x10 [7; 42]]. *)
Lemma resync_recovery_witness :
  exists s1 s2,
    command_get_message (example_board example_parser)
      (example_state [1; 2; 3; 4; 5; 126; 7; 16; 7; 42; 18; 197; 126]
         100 false)
    = Returns None s1
    /\ console_output s1 = [[5; 16; 158; 129; 126]]
    /\ command_get_message (example_board example_parser) s1
       = Returns (Some [7; 16; 7; 42; 18; 197; 126]) s2.
Proof.
  destruct (resync_recovery (example_board example_parser) 1 [2; 3; 4; 5]
              [7; 42] [] 16
              (example_state [1; 2; 3; 4; 5; 126; 7; 16; 7; 42; 18; 197; 126]
                 100 false))
    as (s1 & E1 & _ & _ & _ & _ & Eo & H2).
  - left. vm_compute. reflexivity.
  - repeat (apply Forall_cons; [vm_compute; discriminate|]).
    apply Forall_nil.
  - cbn. lia.
  - lia.
  - reflexivity.
  - vm_compute. reflexivity.
  - destruct (H2 eq_refl) as (s2 & E2).
    exists s1, s2. split; [exact E1|]. split; [exact Eo | exact E2].
Defined.

(** The frame [sendf_frame 0x10 [9]]: the command index has eight
    entries. *)
Lemma unknown_command_shutdown_witness :
  command_task (example_board example_parser)
    (example_state [6; 16; 9; 231; 186; 126] 100 false)
  = Shutdown "Invalid command"
      {| next_sequence := 17; sync_state := 0;
         console_input := [6; 16; 9; 231; 186; 126];
         console_output := [[5; 17; 143; 8; 126]]; console_room := 95;
         is_shutdown := false; shutdown_reason := 9; dispatched := [] |}.
Proof.
  apply (unknown_command_shutdown (example_board example_parser)
           (example_state [6; 16; 9; 231; 186; 126] 100 false)
           {| next_sequence := 17; sync_state := 0;
              console_input := [6; 16; 9; 231; 186; 126];
              console_output := [[5; 17; 143; 8; 126]]; console_room := 95;
              is_shutdown := false; shutdown_reason := 9; dispatched := [] |}
           [6; 16; 9; 231; 186; 126]).
  - vm_compute. reflexivity.
  - vm_compute. reflexivity.
  - left. vm_compute. discriminate.
Defined.

Lemma parse_int_self_delimiting_witness :
  exists v p',
    parse_int [200; 1; 5] 0 = Some (v, p')
    /\ 0 < p' <= 1 + 1
    /\ 0 <= v < 4294967296.
Proof.
  apply (parse_int_self_delimiting [200; 1; 5] 0 1).
  - lia.
  - cbn. lia.
  - vm_compute. reflexivity.
Defined.

(** The parameter of command 7 in the accepted frame
    [sendf_frame 0x10 [7; 42]]. *)
Lemma parsef_stays_in_frame_witness :
  (exists p' args,
      parsef (example_board example_parser) [7; 16; 7; 42; 18; 197; 126] 3 4
        example_parser (example_state [] 100 false)
      = Returns (Some (p', args)) (example_state [] 100 false)
      /\ 3 <= p' <= 7
      /\ 7 <= 7)
  \/ parsef (example_board example_parser) [7; 16; 7; 42; 18; 197; 126] 3 4
       example_parser (example_state [] 100 false)
     = Shutdown "Command parser error" (example_state [] 100 false).
Proof.
  pose proof (parsef_stays_in_frame (example_board example_parser)
                (example_state [7; 16; 7; 42; 18; 197; 126] 100 false)
                {| next_sequence := 17; sync_state := 0;
                   console_input := [7; 16; 7; 42; 18; 197; 126];
                   console_output := [[5; 17; 143; 8; 126]];
                   console_room := 95; is_shutdown := false;
                   shutdown_reason := 9; dispatched := [] |}
                (example_state [] 100 false)
                [7; 16; 7; 42; 18; 197; 126] 3 example_parser
                ltac:(vm_compute; reflexivity)) as H.
  cbv zeta in H. apply H.
  - vm_compute. split; discriminate.
  - vm_compute. discriminate.
  - reflexivity.
Defined.

(** A [uint32] and an [int16] after the message id 7. *)
Lemma codec_roundtrip_witness :
  parsef_params (example_board example_parser) 2 [PT_uint32; PT_int16]
    [7; 134; 141; 32; 131; 255; 126; 0; 0; 126] 1 7 []
    (example_state [] 100 false)
  = Returns (Some (7, [100000; 65534])) (example_state [] 100 false).
Proof.
  apply (codec_roundtrip (example_board example_parser)
           [PT_uint32; PT_int16] [100000; -2] [] [] 20 [7]
           [7; 134; 141; 32; 131; 255; 126] [0; 0; 126] []
           (example_state [] 100 false) (example_state [] 100 false) 7).
  - reflexivity.
  - repeat (apply Forall_cons; [reflexivity|]). apply Forall_nil.
  - vm_compute. reflexivity.
  - cbn. lia.
Defined.

(** Two calls of command 7 behind a two-byte header. *)
Lemma dispatch_in_order_witness :
  command_task_loop (example_board example_parser) 5
    [10; 16; 7; 129; 72; 7; 5; 3; 112; 126] 2 7 (example_state [] 100 false)
  = dispatch_commands (example_board example_parser) [(7, [200]); (7, [5])]
      (example_state [] 100 false).
Proof.
  apply (dispatch_in_order (example_board example_parser)
           [(7, [200]); (7, [5])] [10; 16] [3; 112; 126]
           (example_state [] 100 false)).
  repeat (apply Forall_cons;
          [intros cp Hcp; vm_compute in Hcp; injection Hcp as <-;
           split; [reflexivity|];
           exists [PT_uint32], []; split; [reflexivity|];
           split; [reflexivity|];
           apply Forall_cons; [reflexivity | apply Forall_nil] |]).
  apply Forall_nil.
Defined.

(** The same two calls as a frame of sequence 0x10. *)
Lemma command_task_on_frame_witness :
  exists s1,
    command_get_message (example_board example_parser)
      (example_state [10; 16; 7; 129; 72; 7; 5; 3; 112; 126] 100 false)
    = Returns (Some [10; 16; 7; 129; 72; 7; 5; 3; 112; 126]) s1
    /\ console_input s1 = [10; 16; 7; 129; 72; 7; 5; 3; 112; 126]
    /\ next_sequence s1 = 17
    /\ command_task (example_board example_parser)
         (example_state [10; 16; 7; 129; 72; 7; 5; 3; 112; 126] 100 false)
       = (_ <- dispatch_commands (example_board example_parser)
                 [(7, [200]); (7, [5])] s1 ;;
          fun s' => Returns tt (console_pop_input (5 + 5) s')).
Proof.
  pose proof (command_task_on_frame (example_board example_parser)
                [(7, [200]); (7, [5])] [] 16
                (example_state [10; 16; 7; 129; 72; 7; 5; 3; 112; 126]
                   100 false)) as H.
  cbv zeta in H. apply H.
  - vm_compute. lia.
  - lia.
  - reflexivity.
  - reflexivity.
  - repeat (apply Forall_cons;
            [intros cp Hcp; vm_compute in Hcp; injection Hcp as <-;
             split; [reflexivity|];
             exists [PT_uint32], []; split; [reflexivity|];
             split; [reflexivity|];
             apply Forall_cons; [reflexivity | apply Forall_nil] |]).
    apply Forall_nil.
  - vm_compute. reflexivity.
Defined.

(** The two bytes 0x80 0x05 decode to 5, whose encoding is one byte. *)
Lemma vlq_minimal_witness :
  (length (encode_int [] 5) <= length [128; 5])%nat.
Proof. apply (vlq_minimal [128; 5] 5). vm_compute. reflexivity. Defined.

Lemma crc16_detects_changed_byte_witness :
  crc16_ccitt (example_board example_parser) [5; 16] 2
  <> crc16_ccitt (example_board example_parser) [5; 17] 2.
Proof.
  apply (crc16_detects_changed_byte (example_board example_parser)
           [5] [] 16 17).
  - reflexivity.
  - cbn. lia.
  - vm_compute. discriminate.
Defined.

(** [sendf_frame 0x10 [7; 42]] with its fourth byte changed to 43. *)
Lemma corrupted_frame_rejected_witness :
  crc_check_passes (example_board example_parser)
    (example_state [7; 16; 7; 43; 18; 197; 126] 100 false) = false
  /\ exists s',
       command_get_message (example_board example_parser)
         (example_state [7; 16; 7; 43; 18; 197; 126] 100 false)
       = Returns None s'.
Proof.
  apply (corrupted_frame_rejected (example_board example_parser)
           [7; 42] [] 16 43 3
           (example_state [7; 16; 7; 43; 18; 197; 126] 100 false)).
  - reflexivity.
  - cbn. lia.
  - lia.
  - vm_compute. lia.
  - vm_compute. discriminate.
  - vm_compute. reflexivity.
Defined.

(** A message 3 of a [uint32] and a byte, sized 11. *)
Lemma sendf_sized_message_witness :
  _sendf (example_board example_parser)
    {| command_encoder.msg_id := 3; command_encoder.max_size := 11;
       command_encoder.num_params := 2;
       command_encoder.param_types := [PT_uint32; PT_byte] |}
    [VA_int 100000; VA_int 7] (example_state [] 100 false)
  = Returns tt
      (console_push_output [10; 16; 3; 134; 141; 32; 7; 7; 79; 126] 10
         (example_state [] 100 false)).
Proof.
  pose proof (sendf_sized_message (example_board example_parser)
                {| command_encoder.msg_id := 3;
                   command_encoder.max_size := 11;
                   command_encoder.num_params := 2;
                   command_encoder.param_types := [PT_uint32; PT_byte] |}
                [PT_uint32; PT_byte] [] [100000; 7]
                (example_state [] 100 false)) as H.
  cbv zeta in H.
  destruct H as (_ & _ & E & _).
  - reflexivity.
  - reflexivity.
  - reflexivity.
  - repeat (apply Forall_cons; [reflexivity|]). apply Forall_nil.
  - cbn. lia.
  - change (0 <= 16 < 256). lia.
  - reflexivity.
  - exact E.
Defined.

(** Three bytes asked of a four-byte source with room for two. *)
Lemma buffer_roundtrip_witness :
  sendf_params 1 [PT_buffer] [VA_int 3; VA_ptr [10; 20; 30; 40]] 5 [7]
    (example_state [] 100 false)
  = Returns [7; 2; 10; 20] (example_state [] 100 false)
  /\ parsef_params (example_board example_parser) 1 [PT_buffer]
       [7; 2; 10; 20; 126] 1 4 [] (example_state [] 100 false)
     = Returns (Some (4, [2; 2])) (example_state [] 100 false).
Proof.
  pose proof (buffer_roundtrip (example_board example_parser) PT_buffer 3
                [10; 20; 30; 40] [] [] [] 5 [7] [126] []
                (example_state [] 100 false) (example_state [] 100 false) 4
                ltac:(left; reflexivity)) as H.
  cbv zeta in H.
  destruct H as (Es & Hp).
  - vm_compute. discriminate.
  - vm_compute. reflexivity.
  - vm_compute. discriminate.
  - split; [exact Es|].
    exact (proj1 (Hp ltac:(vm_compute; discriminate))).
Defined.

(** A three-character string with room for the length byte and one
    character. *)
Lemma string_encoding_witness :
  sendf_params 1 [PT_string] [VA_ptr [104; 105; 33; 0; 99]] 5 [7]
    (example_state [] 100 false)
  = Returns [7; 1; 104] (example_state [] 100 false).
Proof.
  apply (string_encoding [104; 105; 33] [99] 0 [] [] 5 [7]
           (example_state [] 100 false)).
  - repeat (apply Forall_cons; [vm_compute; discriminate|]).
    apply Forall_nil.
  - reflexivity.
  - vm_compute. discriminate.
  - vm_compute. discriminate.
Defined.
